(** * Pinterval server: aggregation, normalisation and image proxy

    A shallow embedding of the server-side core of the Pinterval
    application (the current server file, and the earlier
    [server/index.js] where the two differ) together with the
    properties of its specification.

    Conventions of the embedding.
    - An upstream JSON document is a [value]: the untyped tree that
      [JSON.parse] produces, extended with [VUndef] for the result of
      reading an absent property.
    - JavaScript numbers are modelled by exact integers plus [NaN].
      Fractions and infinities are outside the model, and so is the
      rounding of integers beyond 2^53 in magnitude: products,
      [parseInt] and [String] are exact on every integer.
    - The fields of an object are listed in the order in which
      [Object.entries] enumerates them; keys are distinct.
    - Network calls and [Math.random] are actions on an abstract
      [World]; every request that is issued is appended to a log. *)

From stdpp Require Import base decidable option list strings pretty gmap sets.
From Stdlib Require Import ZArith Lia Ascii.

Local Open Scope string_scope.
Local Open Scope list_scope.
Local Open Scope Z_scope.

#[local] Set Warnings "-register-all".

(** ** JavaScript values *)

Inductive num : Type :=
| NaN
| Num (z : Z).

Inductive value : Type :=
| VUndef
| VNull
| VBool (b : bool)
| VNum (n : num)
| VStr (s : string)
| VArr (elems : list value)
| VObj (fields : list (string * value)).

(** [!!v]: the falsy values are [undefined], [null], [false], [0],
    [NaN] and the empty string. *)
Definition truthy (v : value) : bool :=
  match v with
  | VUndef | VNull => false
  | VBool b => b
  | VNum NaN => false
  | VNum (Num z) => negb (z =? 0)
  | VStr s => negb (String.eqb s "")
  | VArr _ | VObj _ => true
  end.

(** [a || b] *)
Definition or_ (a b : value) : value := if truthy a then a else b.

Fixpoint assoc (k : string) (fs : list (string * value)) : value :=
  match fs with
  | [] => VUndef
  | (k', v) :: fs' => if String.eqb k k' then v else assoc k fs'
  end.

(** [v.k] and [v?.k] for the property names this program reads, on a
    non-nullish [v].  None of them exists on an array or on a
    primitive, save [String.prototype.link], which the program only
    reads while building a record that it then discards. *)
Definition get (v : value) (k : string) : value :=
  match v with
  | VObj fs => assoc k fs
  | _ => VUndef
  end.

(** [typeof v === "object"] *)
Definition typeof_object (v : value) : bool :=
  match v with
  | VNull | VArr _ | VObj _ => true
  | _ => false
  end.

(** [typeof v === "number"] *)
Definition typeof_number (v : value) : bool :=
  match v with
  | VNum _ => true
  | _ => false
  end.

Definition string_of_num (n : num) : string :=
  match n with
  | NaN => "NaN"
  | Num z => pretty z
  end.

Fixpoint join_with (sep : string) (l : list string) : string :=
  match l with
  | [] => ""
  | [s] => s
  | s :: l' => s +:+ sep +:+ join_with sep l'
  end.

(** [String(v)].  An array prints its elements separated by commas,
    with [null] and [undefined] elements printed as nothing.  This is
    the text for a value on which [String] returns; [stringable] below
    tells whether it does. *)
Fixpoint to_string (v : value) : string :=
  match v with
  | VUndef => "undefined"
  | VNull => "null"
  | VBool true => "true"
  | VBool false => "false"
  | VNum n => string_of_num n
  | VStr s => s
  | VArr l =>
      join_with ","
        (List.map (fun e => match e with
                            | VUndef | VNull => ""
                            | _ => to_string e
                            end) l)
  | VObj _ => "[object Object]"
  end.

(** Whether [String(v)] returns.  It throws a [TypeError] on an object
    that has an own [toString] property, which in a parsed JSON text is
    never a function, and on an array that holds such an object. *)
Fixpoint stringable (v : value) : bool :=
  match v with
  | VArr l => forallb stringable l
  | VObj fs => negb (existsb (fun kv => String.eqb (fst kv) "toString") fs)
  | _ => true
  end.

(** Whether [to_string] prints [v] digit for digit as [String] does:
    an integer prints in plain decimal up to 2^53 in magnitude. *)
Fixpoint prints_exactly (v : value) : bool :=
  match v with
  | VNum (Num z) => Z.abs z <=? 2 ^ 53
  | VArr l => forallb prints_exactly l
  | _ => true
  end.

(** [Object.entries(v)] for an object or an array. *)
Definition entries (v : value) : list (string * value) :=
  match v with
  | VObj fs => fs
  | VArr l => imap (fun i e => (pretty i, e)) l
  | _ => []
  end.

(** ** Numbers *)

Definition num_min (a b : num) : num :=
  match a, b with
  | Num x, Num y => Num (Z.min x y)
  | _, _ => NaN
  end.

Definition num_max (a b : num) : num :=
  match a, b with
  | Num x, Num y => Num (Z.max x y)
  | _, _ => NaN
  end.

Definition num_sub (a b : num) : num :=
  match a, b with
  | Num x, Num y => Num (x - y)
  | _, _ => NaN
  end.

(** [a >= b]; every comparison with [NaN] is false. *)
Definition num_geb (a b : num) : bool :=
  match a, b with
  | Num x, Num y => y <=? x
  | _, _ => false
  end.

(** ** Image-variant selector *)

Definition is_digit (a : ascii) : bool :=
  let n := N_of_ascii a in ((48 <=? n) && (n <=? 57))%N.

Definition digit_val (a : ascii) : Z := Z.of_N (N_of_ascii a) - 48.

(** Value of the decimal digits at the head of [s], continuing [acc]. *)
Fixpoint leading_digits (s : string) (acc : Z) : Z :=
  match s with
  | String a s' =>
      if is_digit a then leading_digits s' (10 * acc + digit_val a) else acc
  | EmptyString => acc
  end.

(** [parseInt(key.match(/(\d+)/)[1], 10)], or [None] when the key has
    no digit.  The value is the exact integer, which is what [parseInt]
    returns for a run of digits of value at most 2^53. *)
Fixpoint first_digit_run (s : string) : option Z :=
  match s with
  | EmptyString => None
  | String a s' =>
      if is_digit a then Some (leading_digits s 0) else first_digit_run s'
  end.

(** [typeof x === "number" ? x : null] *)
Definition number_or_null (x : value) : value :=
  if typeof_number x then x else VNull.

Definition num_mul_values (w h : value) : Z :=
  match w, h with
  | VNum (Num a), VNum (Num b) => a * b
  | _, _ => 0
  end.

(** The score the loop body gives to one entry. *)
Definition variant_score (key : string) (v : value) : Z :=
  let w := number_or_null (get v "width") in
  let h := number_or_null (get v "height") in
  if truthy w && truthy h then num_mul_values w h
  else match first_digit_run key with
       | Some n => n
       | None => 999999
       end.

(** [!value || !value.url] is false. *)
Definition has_url (v : value) : bool :=
  truthy v && truthy (get v "url").

Definition select_step (best : value * Z) (e : string * value) : value * Z :=
  let '(key, v) := e in
  if has_url v then
    let score := variant_score key v in
    if snd best <? score then (get v "url", score) else best
  else best.

Definition pickBestImageVariant (images : value) : value :=
  if negb (truthy images) || negb (typeof_object images) then VNull
  else fst (fold_left select_step (entries images) (VNull, -1)).

(** ** Pin normaliser: image resolution *)

Definition pickImageUrlFromPin (pin : value) : value :=
  if negb (truthy pin) || negb (typeof_object pin) then VNull
  else
    let mediaImages := get (get pin "media") "images" in
    let best1 := pickBestImageVariant mediaImages in
    if truthy mediaImages && truthy best1 then best1
    else
      let images := get pin "images" in
      let best2 := pickBestImageVariant images in
      if truthy images && truthy best2 then best2
      else if truthy (get pin "image_url") then get pin "image_url"
      else if truthy (get pin "thumbnail_url") then get pin "thumbnail_url"
      else VNull.

(** The canonical record [{id, title, link, image}]. *)
Record pin : Type := Pin {
  pin_id : string;
  pin_title : value;
  pin_link : value;
  pin_image : value
}.

(** ** Effects: exceptions, the upstream and the request log *)

Inductive exn : Type :=
| TypeError
| URIError
| FetchFailed
| BodyFailed
| ApiError (status : Z) (details : string).

Inductive outcome (A : Type) : Type :=
| Ret (a : A)
| Throw (e : exn).
Arguments Ret {A} a.
Arguments Throw {A} e.

Inductive target : Type :=
| Query (base : string) (params : list (string * string))
| Plain (url : string).

Record request : Type := Request {
  req_target : target;
  req_timeout : Z;
  req_headers : list (string * string)
}.

(** What the program reads of a response: the status, the body as text
    ([None] when [text()] rejects), the body as JSON ([None] when
    [json()] rejects), two headers, whether [body] is a stream, and the
    result of [arrayBuffer()] ([None] when it rejects). *)
Record response : Type := Response {
  res_status : Z;
  res_text : option string;
  res_json : option value;
  res_content_type : option string;
  res_content_length : option string;
  res_has_body : bool;
  res_bytes : option string
}.

Definition res_ok (r : response) : bool :=
  (200 <=? res_status r) && (res_status r <=? 299).

(** The two components of a parsed [URL] that the program reads. *)
Record URL : Type := Url {
  protocol : string;
  hostname : string
}.

(** The platform the program runs on.  [http_fetch] answers one request
    ([None]: the call rejects, by a network failure or by the abort of
    the timer); [math_random] is [String(Math.random())].  The other
    fields are built-ins: [encodeURIComponent] ([None] when it throws),
    [Number] on a string, [String.prototype.trim] and [new URL]
    ([None] when it throws). *)
Class Platform : Type := {
  World : Type;
  http_fetch : request -> World -> option response * World;
  math_random : World -> string * World;
  encodeURIComponent : string -> option string;
  string_to_number : string -> num;
  string_trim : string -> string;
  url_parse : string -> option URL
}.

Section Effects.
Context {P : Platform}.

Record env : Type := Env {
  world : World;
  requests : list request
}.

Definition M (A : Type) : Type := env -> outcome A * env.

Definition ret {A} (a : A) : M A := fun s => (Ret a, s).

Definition throw {A} (e : exn) : M A := fun s => (Throw e, s).

Definition bind {A B} (m : M A) (k : A -> M B) : M B :=
  fun s =>
    match m s with
    | (Ret a, s') => k a s'
    | (Throw e, s') => (Throw e, s')
    end.

(** [try { m } catch (e) { h e }] *)
Definition try_catch {A} (m : M A) (h : exn -> M A) : M A :=
  fun s =>
    match m s with
    | (Ret a, s') => (Ret a, s')
    | (Throw e, s') => h e s'
    end.

Definition fetchWithTimeout (req : request) : M response :=
  fun s =>
    let '(r, w) := http_fetch req (world s) in
    let s' := Env w (requests s ++ [req]) in
    match r with
    | Some res => (Ret res, s')
    | None => (Throw FetchFailed, s')
    end.

Definition random_string : M string :=
  fun s =>
    let '(r, w) := math_random (world s) in (Ret r, Env w (requests s)).

Definition of_option {A} (e : exn) (o : option A) : M A :=
  match o with
  | Some a => ret a
  | None => throw e
  end.
End Effects.

Notation "'do' x <- m ; k" := (bind m (fun x => k))
  (at level 10, x name, m at level 100, k at level 200).

(** [pin_title] and [pin_link] of the record built from [p]. *)
Definition title_of (p : value) : value :=
  or_ (or_ (or_ (get p "title") (get p "description")) (get p "alt_text"))
      (VStr "").

Definition link_of (p : value) : value := or_ (get p "link") VNull.

(** [Array.isArray(json?.items) ? json.items : []] *)
Definition items_of (json : value) : list value :=
  match get json "items" with
  | VArr l => l
  | _ => []
  end.

Definition has_image (p : pin) : bool := truthy (pin_image p).

(** [normalizePinsFromPinterest] has the same text in both server
    files; it is written once, over the [pickImageUrlFromPin] of the
    file at hand. *)
Section Normalizer.
Context {P : Platform}.
Variable pick : value -> value.

(** [p.id] on a possibly nullish [p]. *)
Definition get_strict (p : value) (k : string) : M value :=
  match p with
  | VUndef | VNull => throw TypeError
  | _ => ret (get p k)
  end.

(** The callback of [items.map]. *)
Definition normalize_pin (p : value) : M pin :=
  let image := pick p in
  do idv <- get_strict p "id";
  do id <- (if truthy (or_ idv image) then ret (to_string (or_ idv image))
            else random_string);
  ret {| pin_id := id;
         pin_title := title_of p;
         pin_link := link_of p;
         pin_image := image |}.

Fixpoint map_M {A B} (f : A -> M B) (l : list A) : M (list B) :=
  match l with
  | [] => ret []
  | a :: l' => do b <- f a; do bs <- map_M f l'; ret (b :: bs)
  end.

Definition normalize_pins (json : value) : M (list pin) :=
  do recs <- map_M normalize_pin (items_of json);
  ret (List.filter has_image recs).
End Normalizer.

Definition normalizePinsFromPinterest {P : Platform} : value -> M (list pin) :=
  normalize_pins pickImageUrlFromPin.

(** ** The normaliser of [server/index.js] *)

Module Legacy.

(** [v && typeof v === 'object' && typeof v.url === 'string'] *)
Definition string_url (v : value) : bool :=
  truthy v && typeof_object v &&
  match get v "url" with
  | VStr _ => true
  | _ => false
  end.

(** The loop [for (const v of Object.values(m)) if (...) return v.url]:
    the [url] of the first variant that has a string one. *)
Fixpoint first_string_url (vs : list value) : option value :=
  match vs with
  | [] => None
  | v :: vs' => if string_url v then Some (get v "url")
                else first_string_url vs'
  end.

Definition preferredOrder : list string :=
  ["orig"; "1200x"; "1000x"; "800x"; "600x"; "400x"; "236x"; "150x150"].

(** [images[key] && typeof images[key].url === 'string'] *)
Definition keyed_string_url (v : value) : bool :=
  truthy v &&
  match get v "url" with
  | VStr _ => true
  | _ => false
  end.

Fixpoint first_preferred (images : value) (keys : list string) : option value :=
  match keys with
  | [] => None
  | k :: keys' =>
      if keyed_string_url (get images k) then Some (get (get images k) "url")
      else first_preferred images keys'
  end.

(** [/^https?:\/\/i\.pinimg\.com\//.test(s)] *)
Definition pinimg_link (s : string) : bool :=
  String.prefix "http://i.pinimg.com/" s
  || String.prefix "https://i.pinimg.com/" s.

Definition is_string (v : value) : bool :=
  match v with
  | VStr _ => true
  | _ => false
  end.

Definition scalar_fallback (pin : value) : value :=
  if is_string (get pin "image_url") then get pin "image_url"
  else if is_string (get pin "thumbnail_url") then get pin "thumbnail_url"
  else match get pin "link" with
       | VStr l => if pinimg_link l then VStr l else VNull
       | _ => VNull
       end.

Definition legacy_images (pin : value) : value :=
  let images := get pin "images" in
  if truthy images && typeof_object images then
    match first_preferred images preferredOrder with
    | Some u => u
    | None =>
        match first_string_url (List.map snd (entries images)) with
        | Some u => u
        | None => scalar_fallback pin
        end
    end
  else scalar_fallback pin.

Definition pickImageUrlFromPin (pin : value) : value :=
  if negb (truthy pin) || negb (typeof_object pin) then VNull
  else
    let mediaImages :=
      if truthy (get pin "media") then get (get pin "media") "images"
      else get pin "media" in
    if truthy mediaImages && typeof_object mediaImages then
      match first_string_url (List.map snd (entries mediaImages)) with
      | Some u => u
      | None => legacy_images pin
      end
    else legacy_images pin.

Definition normalizePinsFromPinterest {P : Platform}
    : value -> M (list pin) :=
  normalize_pins pickImageUrlFromPin.

End Legacy.

(** ** Paged collection fetcher *)

(** [Number(n) || 0] on a number. *)
Definition number_or_zero (n : num) : Z :=
  match n with
  | Num z => z
  | NaN => 0
  end.

(** [l.slice(0, n)] for [n] that is [NaN] or not negative. *)
Definition slice_to (n : num) {A} (l : list A) : list A :=
  firstn (Z.to_nat (number_or_zero n)) l.

(** The loop [for (const p of ps) { if (full) break; if (seen.has(p.id))
    continue; seen.add(p.id); out.push(p); }], shared by the fetcher and
    the aggregator. *)
Fixpoint append_unseen (full : nat -> bool) (ps : list pin)
    (out : list pin) (seen : gset string) : list pin * gset string :=
  match ps with
  | [] => (out, seen)
  | p :: ps' =>
      if full (length out) then (out, seen)
      else if decide (pin_id p ∈ seen) then append_unseen full ps' out seen
      else append_unseen full ps' (out ++ [p]) ({[pin_id p]} ∪ seen)
  end.

(** The variables of the [while] loop. *)
Record paging : Type := Paging {
  pg_out : list pin;
  pg_seen : gset string;
  pg_bookmark : value
}.

Definition api_headers (accessToken : value) : list (string * string) :=
  [("Accept", "application/json");
   ("Authorization", "Bearer " +:+ to_string accessToken)].

(** [json?.bookmark || json?.next_bookmark || null] *)
Definition next_bookmark (json : value) : value :=
  or_ (or_ (get json "bookmark") (get json "next_bookmark")) VNull.

Definition bookmark_param (bookmark : value) : list (string * string) :=
  if truthy bookmark then [("bookmark", to_string bookmark)] else [].

Section Paged.
Context {P : Platform}.
Variables (endpointBase : string) (accessToken : value)
          (limit : num) (timeoutMs : Z).

Definition safeLimit : Z := Z.min (Z.max (number_or_zero limit) 1) 500.

Definition pageSize : Z := Z.min safeLimit 50.

Definition page_full (n : nat) : bool := safeLimit <=? Z.of_nat n.

Definition page_request (bookmark : value) : request :=
  {| req_target :=
       Query endpointBase
             (("page_size", pretty pageSize) :: bookmark_param bookmark);
     req_timeout := timeoutMs;
     req_headers := api_headers accessToken |}.

(** One turn of the loop body; the flag tells whether a bookmark
    came back, that is, whether the loop goes on. *)
Definition fetch_page (st : paging) : M (paging * bool) :=
  do res <- fetchWithTimeout (page_request (pg_bookmark st));
  if negb (res_ok res) then
    throw (ApiError (res_status res) (default "" (res_text res)))
  else
    do json <- of_option BodyFailed (res_json res);
    do normalized <- normalizePinsFromPinterest json;
    let '(out, seen) :=
      append_unseen page_full normalized (pg_out st) (pg_seen st) in
    let bookmark := next_bookmark json in
    ret (Paging out seen bookmark, truthy bookmark).

(** [while (out.length < safeLimit && loops < 50)], with
    [budget = 50 - loops]. *)
Fixpoint pages_loop (budget : nat) (st : paging) : M (list pin) :=
  match budget with
  | O => ret (pg_out st)
  | S budget' =>
      if page_full (length (pg_out st)) then ret (pg_out st)
      else
        do r <- fetch_page st;
        if snd r then pages_loop budget' (fst r) else ret (pg_out (fst r))
  end.

Definition fetchPinsPaged : M (list pin) :=
  do out <- pages_loop 50 (Paging [] ∅ VNull);
  ret (slice_to (Num safeLimit) out).
End Paged.

(** ** Multi-board aggregator: [GET /api/me/pins] *)

Inductive payload : Type :=
| Items (items : list pin)
| Failure (error : string).

Record reply : Type := Reply {
  rp_status : Z;
  rp_body : payload
}.

Record board : Type := Board {
  board_id : string;
  board_name : value
}.

Definition boards_url : string := "https://api.pinterest.com/v5/boards".

Definition no_token_message : string :=
  "Access Token がありません。/auth/login で認証してください。".

(** The loop [for (const b of items) { if (!b?.id) continue;
    boards.push({ id: String(b.id), name: b.name || '' }); }] *)
Definition push_boards (items : list value) (boards : list board) : list board :=
  fold_left
    (fun (acc : list board) (b : value) =>
       if truthy (get b "id")
       then acc ++ [Board (to_string (get b "id")) (or_ (get b "name") (VStr ""))]
       else acc)
    items boards.

Section Aggregator.
Context {P : Platform}.

(** [Number(v)] *)
Definition to_number (v : value) : num :=
  match v with
  | VUndef => NaN
  | VNull => Num 0
  | VBool true => Num 1
  | VBool false => Num 0
  | VNum n => n
  | VStr s => string_to_number s
  | VArr _ | VObj _ => string_to_number (to_string v)
  end.

(** [Math.min(Math.max(Number(req.query.limit || 120), 1), 500)] *)
Definition request_limit (query_limit : value) : num :=
  let rawLimit := to_number (or_ query_limit (VNum (Num 120))) in
  num_min (num_max rawLimit (Num 1)) (Num 500).

Variables (accessToken : value) (limit : num).

Definition boards_request (bookmark : value) : request :=
  {| req_target :=
       Query boards_url (("page_size", "100") :: bookmark_param bookmark);
     req_timeout := 10000;
     req_headers := api_headers accessToken |}.

(** Phase 1, [while (boards.length < 500 && loops < 20)] with
    [budget = 20 - loops].  [inl] is the early [return] of the
    handler. *)
Fixpoint boards_loop (budget : nat) (boards : list board) (bookmark : value)
    : M (reply + list board) :=
  match budget with
  | O => ret (inr boards)
  | S budget' =>
      if (500 <=? length boards)%nat then ret (inr boards)
      else
        do res <- fetchWithTimeout (boards_request bookmark);
        if negb (res_ok res) then
          ret (inl (Reply 502 (Failure "Pinterest API error (boards)")))
        else
          do json <- of_option BodyFailed (res_json res);
          let boards' := push_boards (items_of json) boards in
          let bookmark' := next_bookmark json in
          if truthy bookmark' then boards_loop budget' boards' bookmark'
          else ret (inr boards')
  end.

Definition agg_full (n : nat) : bool := num_geb (Num (Z.of_nat n)) limit.

(** [Math.min(200, limit - out.length)] *)
Definition board_limit (collected : nat) : num :=
  num_min (Num 200) (num_sub limit (Num (Z.of_nat collected))).

Definition board_pins_url (encoded_id : string) : string :=
  "https://api.pinterest.com/v5/boards/" +:+ encoded_id +:+ "/pins".

(** The call of [fetchPinsPaged] for one board, when [collected]
    records are in [out]. *)
Definition fetch_board_pins (b : board) (collected : nat) : M (list pin) :=
  do enc <- of_option URIError (encodeURIComponent (board_id b));
  fetchPinsPaged (board_pins_url enc) accessToken
                 (board_limit collected) 10000.

(** The body of the [try] block for one board. *)
Definition fetch_board (b : board) (out : list pin) (seen : gset string)
    : M (list pin * gset string) :=
  do pins <- fetch_board_pins b (length out);
  ret (append_unseen agg_full pins out seen).

(** The [try] statement for one board: a failure leaves [out] and
    [seen] as they are. *)
Definition try_board (b : board) (out : list pin) (seen : gset string)
    : M (list pin * gset string) :=
  try_catch (fetch_board b out seen) (fun _ => ret (out, seen)).

(** Phase 2, [for (const b of boards)]. *)
Fixpoint collect_boards (bs : list board) (out : list pin)
    (seen : gset string) : M (list pin) :=
  match bs with
  | [] => ret out
  | b :: bs' =>
      if agg_full (length out) then ret out
      else
        do r <- try_board b out seen;
        collect_boards bs' (fst r) (snd r)
  end.

(** The body of the outer [try] block. *)
Definition me_pins_body : M reply :=
  do r <- boards_loop 20 [] VNull;
  match r with
  | inl early => ret early
  | inr boards =>
      match boards with
      | [] => ret (Reply 200 (Items []))
      | _ =>
          do out <- collect_boards boards [] ∅;
          ret (Reply 200 (Items (slice_to limit out)))
      end
  end.
End Aggregator.

Definition me_pins {P : Platform} (accessToken query_limit : value)
    (s : env) : reply * env :=
  if negb (truthy accessToken) then (Reply 500 (Failure no_token_message), s)
  else
    match me_pins_body accessToken (request_limit query_limit) s with
    | (Ret r, s') => (r, s')
    | (Throw _, s') =>
        (Reply 502 (Failure "Pinterest my pins request failed"), s')
    end.

(** ** Image proxy: [GET /api/image-proxy] *)

Definition ALLOWED_IMAGE_HOST_SUFFIXES : list string :=
  [".pinimg.com"; ".pinterest.com"; ".unsplash.com"].

Definition lower_ascii (a : ascii) : ascii :=
  let n := N_of_ascii a in
  if ((65 <=? n) && (n <=? 90))%N then ascii_of_N (n + 32) else a.

(** [toLowerCase] on a host name, which is ASCII. *)
Fixpoint to_lower (s : string) : string :=
  match s with
  | EmptyString => EmptyString
  | String a s' => String (lower_ascii a) (to_lower s')
  end.

(** [s.endsWith(suf)] *)
Definition ends_with (s suf : string) : bool :=
  let n := String.length s in
  let m := String.length suf in
  (m <=? n)%nat && String.eqb (String.substring (n - m) m s) suf.

Definition isAllowedImageHost (host : string) : bool :=
  let h := to_lower host in
  existsb (fun suf => ends_with h suf) ALLOWED_IMAGE_HOST_SUFFIXES.

(** What the handler does with the response object: [send] a short
    text, pipe the upstream body, or [end] with the buffered bytes. *)
Inductive proxy_reply : Type :=
| Send (status : Z) (text : string)
| Piped (status : Z) (headers : list (string * string))
| Ended (status : Z) (headers : list (string * string)) (bytes : string).



Definition MAX_IMAGE_BYTES : Z := 25 * 1024 * 1024.

Definition image_request (raw : string) : request :=
  {| req_target := Plain raw;
     req_timeout := 15000;
     req_headers :=
       [("Accept", "image/avif,image/webp,image/apng,image/*,*/*;q=0.8");
        ("User-Agent", "Pinterval/1.0 (image-proxy)")] |}.

(** [h || d] for a header that is a string or [null]. *)
Definition header_or (h : option string) (d : string) : string :=
  match h with
  | Some s => if String.eqb s "" then d else s
  | None => d
  end.

Section ImageProxy.
Context {P : Platform}.

(** [contentLength ? Number(contentLength) : 0] *)
Definition declared_length (h : option string) : num :=
  match h with
  | Some s => if String.eqb s "" then Num 0 else string_to_number s
  | None => Num 0
  end.

(** [len && len > 25 * 1024 * 1024] *)
Definition too_large (len : num) : bool :=
  match len with
  | Num z => negb (z =? 0) && (MAX_IMAGE_BYTES <? z)
  | NaN => false
  end.

Definition proxy_headers (upstream : response) : list (string * string) :=
  [("Content-Type",
    header_or (res_content_type upstream) "application/octet-stream");
   ("Cache-Control", "public, max-age=86400");
   ("Access-Control-Allow-Origin", "*");
   ("X-Content-Type-Options", "nosniff")].

(** The part of the handler after the upstream answered. *)
Definition relay (upstream : response) : proxy_reply :=
  if negb (res_ok upstream) then Send 502 "upstream error"
  else if too_large (declared_length (res_content_length upstream))
  then Send 413 "image too large"
  else if res_has_body upstream then Piped 200 (proxy_headers upstream)
  else match res_bytes upstream with
       | Some ab => Ended 200 (proxy_headers upstream) ab
       | None => Send 502 "image proxy failed"
       end.

Definition image_proxy (query_url : value) (s : env) : proxy_reply * env :=
  let raw := string_trim (to_string (or_ query_url (VStr ""))) in
  if String.eqb raw "" then (Send 400 "url is required", s)
  else
    match url_parse raw with
    | None => (Send 400 "invalid url", s)
    | Some u =>
        if negb (String.eqb (protocol u) "https:"
                 || String.eqb (protocol u) "http:")
        then (Send 400 "unsupported protocol", s)
        else if negb (isAllowedImageHost (hostname u))
        then (Send 403 "host not allowed", s)
        else
          match fetchWithTimeout (image_request raw) s with
          | (Ret upstream, s') => (relay upstream, s')
          | (Throw _, s') => (Send 502 "image proxy failed", s')
          end
    end.
End ImageProxy.

(** ** [GET /api/boards/:boardId/pins] *)

Definition board_pins {P : Platform} (accessToken query_limit : value)
    (boardId : string) (s : env) : reply * env :=
  if negb (truthy accessToken) then (Reply 500 (Failure no_token_message), s)
  else
    let limit := request_limit query_limit in
    match (do enc <- of_option URIError (encodeURIComponent boardId);
           fetchPinsPaged (board_pins_url enc) accessToken limit 10000) s with
    | (Ret items, s') => (Reply 200 (Items items), s')
    | (Throw _, s') =>
        (Reply 502 (Failure "Pinterest board pins request failed"), s')
    end.

(** ** [GET /api/me/boards] *)

Record board_info : Type := BoardInfo {
  bi_id : string;
  bi_name : value;
  bi_description : value
}.

Inductive boards_reply : Type :=
| BoardsOk (items : list board_info)
| BoardsError (status : Z) (error : string).

(** The callback of [json.items.map] in the boards handler. *)
Definition board_info_of {P : Platform} (b : value) : M board_info :=
  do idv <- get_strict b "id";
  do id <- (if stringable idv then ret (to_string idv) else throw TypeError);
  ret {| bi_id := id;
         bi_name := or_ (get b "name") (VStr "");
         bi_description := or_ (get b "description") (VStr "") |}.

(** The body of the [try] block of the boards handler. *)
Definition me_boards_body {P : Platform} (accessToken : value)
    : M boards_reply :=
  do res <- fetchWithTimeout (boards_request accessToken VNull);
  if negb (res_ok res) then
    do text <- of_option BodyFailed (res_text res);
    ret (BoardsError 502 "Pinterest API error (boards)")
  else
    do json <- of_option BodyFailed (res_json res);
    do items <- map_M board_info_of (items_of json);
    ret (BoardsOk items).

Definition me_boards {P : Platform} (accessToken : value) (s : env)
    : boards_reply * env :=
  if negb (truthy accessToken) then (BoardsError 500 no_token_message, s)
  else
    match me_boards_body accessToken s with
    | (Ret r, s') => (r, s')
    | (Throw _, s') => (BoardsError 502 "Pinterest boards request failed", s')
    end.

(** ** [GET /api/search] *)

Definition search_url : string := "https://api.pinterest.com/v5/search/pins".

(** A success carries the source and the items; a failure carries the
    HTTP status, the error text and, when the handler echoes it, the
    status of the upstream. *)
Inductive search_reply (A : Type) : Type :=
| SearchOk (source : string) (items : list A)
| SearchError (status : Z) (error : string) (upstream : option Z).
Arguments SearchOk {A} source items.
Arguments SearchError {A} status error upstream.

Section Search.
Context {P : Platform}.

(** [JSON.parse]; [None] when it throws. *)
Variable JSON_parse : string -> option value.

(** [Math.min(Math.max(Number(req.query.limit || 60), 1), 120)] *)
Definition search_limit (query_limit : value) : num :=
  let rawLimit := to_number (or_ query_limit (VNum (Num 60))) in
  num_min (num_max rawLimit (Num 1)) (Num 120).

Definition search_request (accessToken : value) (q : string) (page_size : num)
    : request :=
  {| req_target :=
       Query search_url [("query", q); ("page_size", string_of_num page_size)];
     req_timeout := 10000;
     req_headers := api_headers accessToken |}.

(** The body of the [try] block of the search handler. *)
Definition search_body (accessToken : value) (q : string) (limit : num)
    : M (search_reply pin) :=
  do res <- fetchWithTimeout
              (search_request accessToken q (num_min limit (Num 50)));
  do text <- of_option BodyFailed (res_text res);
  if negb (res_ok res) then
    ret (SearchError 502 "Pinterest API error" (Some (res_status res)))
  else
    do json <- of_option BodyFailed (JSON_parse text);
    do normalized <- normalizePinsFromPinterest json;
    ret (SearchOk "pinterest-v5" (slice_to limit normalized)).

Definition search (accessToken query_q query_limit : value) (s : env)
    : search_reply pin * env :=
  let q := string_trim (to_string (or_ query_q (VStr ""))) in
  let limit := search_limit query_limit in
  if String.eqb q "" then (SearchError 400 "q is required" None, s)
  else if negb (truthy accessToken)
  then (SearchError 500 no_token_message None, s)
  else
    match search_body accessToken q limit s with
    | (Ret r, s') => (r, s')
    | (Throw _, s') =>
        (SearchError 502 "Pinterest API request failed" None, s')
    end.
End Search.

(** ** The search handler of [server/index.js], with its cache *)

Module LegacySearch.

(** The record as it is kept in the cache and sent to the client. *)
Definition pin_json (p : pin) : value :=
  VObj [("id", VStr (pin_id p)); ("title", pin_title p);
        ("link", pin_link p); ("image", pin_image p)].

Definition missing_token_message : string :=
  "Pinterest API access token is not configured. Set PINTEREST_ACCESS_TOKEN to a valid OAuth2 access token.".

(** [Number.isFinite(rawLimit) ? Math.min(Math.max(rawLimit, 1), 120) : 60] *)
Definition finite_limit (rawLimit : num) : Z :=
  match rawLimit with
  | Num z => Z.min (Z.max z 1) 120
  | NaN => 60
  end.

Definition cacheKey (q : string) (limit : Z) (useMock : bool) : string :=
  q +:+ "::" +:+ pretty limit +:+ "::" +:+ (if useMock then "mock" else "live").

Section Handler.
Context {P : Platform}.

(** [JSON.parse]; the value of [process.env.USE_MOCK === '1']; the
    default export of the bundled sample ([None] when the import
    rejects); the value of [process.env.PINTEREST_ACCESS_TOKEN]. *)
Variable JSON_parse : string -> option value.
Variable useMock : bool.
Variable sample : option value.
Variable accessToken : value.

(** The limit of the request.  It is an integer here because the
    numbers of the model are; a fractional [limit] is outside the
    model. *)
Definition limit_of (query_limit : value) : Z :=
  finite_limit (to_number (or_ query_limit (VNum (Num 60)))).

(** The body of the [try] block of the mock mode. *)
Definition mock_items (limit : Z) : M (list value) :=
  do smp <- of_option BodyFailed sample;
  do items <- get_strict smp "items";
  ret (match items with
       | VArr l => firstn (Z.to_nat limit) l
       | _ => []
       end).

(** The body of the [try] block of the live mode; [inl] is a reply
    sent without touching the cache, [inr] the items to cache and
    send. *)
Definition live_body (q : string) (limit : Z)
    : M (search_reply value + list value) :=
  do res <- fetchWithTimeout
              (search_request accessToken q (Num (Z.min limit 50)));
  do text <- of_option BodyFailed (res_text res);
  if negb (res_ok res) then
    ret (inl (SearchError (if res_status res =? 0 then 502 else res_status res)
                          "Pinterest API error" (Some (res_status res))))
  else
    match JSON_parse text with
    | None =>
        ret (inl (SearchError 502 "Failed to parse Pinterest response" None))
    | Some json =>
        do normalized <- Legacy.normalizePinsFromPinterest json;
        ret (inr (List.map pin_json (firstn (Z.to_nat limit) normalized)))
    end.

Definition search (query_q query_limit : value)
    (cache : gmap string (list value)) (s : env)
    : search_reply value * gmap string (list value) * env :=
  let q := string_trim (to_string (or_ query_q (VStr ""))) in
  let limit := limit_of query_limit in
  if String.eqb q "" then (SearchError 400 "q is required" None, cache, s)
  else
    let key := cacheKey q limit useMock in
    match (if useMock then None else cache !! key) with
    | Some items => (SearchOk "cache" items, cache, s)
    | None =>
        if useMock then
          match mock_items limit s with
          | (Ret items, s') => (SearchOk "mock" items, <[key := items]> cache, s')
          | (Throw _, s') =>
              (SearchError 500 "Failed to load mock data" None, cache, s')
          end
        else if negb (truthy accessToken)
        then (SearchError 500 missing_token_message None, cache, s)
        else
          match live_body q limit s with
          | (Ret (inr items), s') =>
              (SearchOk "pinterest-v5" items, <[key := items]> cache, s')
          | (Ret (inl r), s') => (r, cache, s')
          | (Throw _, s') =>
              (SearchError 502 "Pinterest API request failed" None, cache, s')
          end
    end.
End Handler.

End LegacySearch.

(** ** The selection policy as the specification words it *)

(** Score of the specification: the area whenever both dimensions are
    numbers, else the first run of digits of the key, else 999999. *)
Definition spec_score (key : string) (v : value) : Z :=
  match get v "width", get v "height" with
  | VNum (Num w), VNum (Num h) => w * h
  | _, _ => match first_digit_run key with
            | Some n => n
            | None => 999999
            end
  end.

(** First element of [l] with the greatest score. *)
Fixpoint first_max {A} (score : A -> Z) (l : list A) : option A :=
  match l with
  | [] => None
  | x :: l' =>
      match first_max score l' with
      | Some y => if score x <? score y then Some y else Some x
      | None => Some x
      end
  end.

Definition usable (e : string * value) : bool := has_url (snd e).

Definition spec_select (images : value) : value :=
  match first_max (fun e => spec_score (fst e) (snd e))
                  (List.filter usable (entries images)) with
  | Some e => get (snd e) "url"
  | None => VNull
  end.

Definition entry_score (e : string * value) : Z :=
  variant_score (fst e) (snd e).

(** [score > bestScore] at the start of the scan, where [bestScore] is
    -1, on an entry that the scan does not skip. *)
Definition eligible (e : string * value) : bool :=
  usable e && (-1 <? entry_score e).

(** [usable] entries scoring above [t]. *)
Definition above (t : Z) (e : string * value) : bool :=
  usable e && (t <? entry_score e).

(** The resolution order of the image as the specification words it:
    the first candidate that is truthy, [null] when there is none. *)
Fixpoint first_truthy (candidates : list value) : value :=
  match candidates with
  | [] => VNull
  | v :: rest => if truthy v then v else first_truthy rest
  end.

Definition image_candidates (pin : value) : list value :=
  [pickBestImageVariant (get (get pin "media") "images");
   pickBestImageVariant (get pin "images");
   get pin "image_url";
   get pin "thumbnail_url"].

(** ** Deduplication invariant *)

(** The relation between [out] and [seen] that both loops maintain. *)
Definition tracks (out : list pin) (seen : gset string) : Prop :=
  NoDup (List.map pin_id out) /\
  forall x, x ∈ seen <-> In x (List.map pin_id out).

(** ** Runs of the paging loop *)

(** [turns b st s b' st' s']: from the loop head with budget [b],
    variables [st] and environment [s], the loop reaches the loop head
    with [b'], [st'] and [s'] after some turns, each of which fetched a
    page successfully and got a bookmark. *)
Inductive turns {P : Platform} (endpointBase : string) (accessToken : value)
    (limit : num) (timeoutMs : Z)
    : nat -> paging -> env -> nat -> paging -> env -> Prop :=
| turns_here budget st s :
    turns endpointBase accessToken limit timeoutMs budget st s budget st s
| turns_next budget st s st1 s1 budget' st' s' :
    page_full limit (length (pg_out st)) = false ->
    fetch_page endpointBase accessToken limit timeoutMs st s
      = (Ret (st1, true), s1) ->
    turns endpointBase accessToken limit timeoutMs budget st1 s1 budget' st' s' ->
    turns endpointBase accessToken limit timeoutMs (S budget) st s budget' st' s'.

(** ** Order of the output *)

(** [assembled_pages b bm s l]: [l] is made of one chunk per page, in
    the order in which the loop fetches the pages from the loop head
    with budget [b], bookmark [bm] and environment [s]; the chunk of a
    page is a subsequence of the records normalised from that page. *)
Inductive assembled_pages {P : Platform} (endpointBase : string)
    (accessToken : value) (limit : num) (timeoutMs : Z)
    : nat -> value -> env -> list pin -> Prop :=
| ap_done budget bm s :
    assembled_pages endpointBase accessToken limit timeoutMs budget bm s []
| ap_page budget bm s res w json normalized s1 chunk rest :
    http_fetch (page_request endpointBase accessToken limit timeoutMs bm)
               (world s) = (Some res, w) ->
    res_json res = Some json ->
    normalizePinsFromPinterest json
      (Env w (requests s ++
              [page_request endpointBase accessToken limit timeoutMs bm]))
      = (Ret normalized, s1) ->
    sublist chunk normalized ->
    assembled_pages endpointBase accessToken limit timeoutMs
                    budget (next_bookmark json) s1 rest ->
    assembled_pages endpointBase accessToken limit timeoutMs
                    (S budget) bm s (chunk ++ rest).

(** [assembled_boards bs n s l]: [l] is made of one chunk per board of
    [bs], in order, starting with [n] records collected and in
    environment [s]; a board whose fetch throws contributes nothing,
    and the chunk of any other board is a subsequence of what
    [fetchPinsPaged] returned for it when asked for
    [board_limit] of the records collected so far. *)
Inductive assembled_boards {P : Platform} (accessToken : value) (limit : num)
    : list board -> nat -> env -> list pin -> Prop :=
| ab_done bs n s : assembled_boards accessToken limit bs n s []
| ab_skip b bs n s e s1 rest :
    fetch_board_pins accessToken limit b n s = (Throw e, s1) ->
    assembled_boards accessToken limit bs n s1 rest ->
    assembled_boards accessToken limit (b :: bs) n s rest
| ab_take b bs n s pins s1 chunk rest :
    fetch_board_pins accessToken limit b n s = (Ret pins, s1) ->
    sublist chunk pins ->
    assembled_boards accessToken limit bs (n + length chunk)%nat s1 rest ->
    assembled_boards accessToken limit (b :: bs) n s (chunk ++ rest).

(** ** The aggregation as the specification words it *)





(** ** The record of an item, as a function *)

Definition nullish (v : value) : bool :=
  match v with
  | VUndef | VNull => true
  | _ => false
  end.

(** The record that the callback of [items.map] builds from an item
    whose image resolves; no random number enters it. *)
Definition record_of (pick : value -> value) (p : value) : pin :=
  {| pin_id := to_string (or_ (get p "id") (pick p));
     pin_title := title_of p;
     pin_link := link_of p;
     pin_image := pick p |}.

Definition resolves (pick : value -> value) (p : value) : bool :=
  truthy (pick p).

(** ** Sample data *)

(** A variant map whose second entry carries a zero width. *)
Definition zero_width_map : value :=
  VObj [("a", VObj [("url", VStr "A");
                    ("width", VNum (Num 1)); ("height", VNum (Num 1))]);
        ("1200x", VObj [("url", VStr "B");
                        ("width", VNum (Num 0)); ("height", VNum (Num 5))])].

(** A platform that answers the requests one after the other from a
    script; when the script is used up, every call rejects. *)
Definition scripted_fetch (_ : request) (w : list (option response))
    : option response * list (option response) :=
  match w with
  | r :: w' => (r, w')
  | [] => (None, [])
  end.

Fixpoint all_digits (s : string) : bool :=
  match s with
  | EmptyString => true
  | String a s' => is_digit a && all_digits s'
  end.

(** [Number] on the plain decimal numerals, [NaN] elsewhere. *)
Definition decimal_number (s : string) : num :=
  if negb (String.eqb s "") && all_digits s then Num (leading_digits s 0)
  else NaN.

(** [new URL] on texts of the form [scheme://host/path]. *)
Definition simple_url (s : string) : option URL :=
  match String.index 0 "://" s with
  | Some i =>
      let rest := String.substring (i + 3) (String.length s - (i + 3)) s in
      let host := match String.index 0 "/" rest with
                  | Some j => String.substring 0 j rest
                  | None => rest
                  end in
      if (i =? 0)%nat then None
      else Some (Url (String.substring 0 i s +:+ ":") host)
  | None => None
  end.

Definition scripted : Platform :=
  {| World := list (option response);
     http_fetch := scripted_fetch;
     math_random := fun w => ("0.5", w);
     encodeURIComponent := fun s => Some s;
     string_to_number := decimal_number;
     string_trim := fun s => s;
     url_parse := simple_url |}.

Definition start (script : list (option response)) : @env scripted :=
  @Env scripted script [].

Definition json_response (status : Z) (json : value) : option response :=
  Some {| res_status := status;
          res_text := Some "";
          res_json := Some json;
          res_content_type := Some "application/json";
          res_content_length := None;
          res_has_body := true;
          res_bytes := None |}.

Definition error_body (status : Z) (text : string) : response :=
  {| res_status := status;
     res_text := Some text;
     res_json := None;
     res_content_type := None;
     res_content_length := None;
     res_has_body := true;
     res_bytes := None |}.

Definition error_response (status : Z) (text : string) : option response :=
  Some (error_body status text).

(** A page with a pin and a [null] item, and a page whose only item has
    a number for its [image_url]. *)
Definition null_item_page : value :=
  VObj [("items",
         VArr [VObj [("id", VStr "1");
                     ("image_url", VStr "https://i.pinimg.com/1.jpg")];
               VNull])].

Definition numeric_image_page : value :=
  VObj [("items", VArr [VObj [("image_url", VNum (Num 42))]])].

(** A pin with the given id and an image. *)
Definition sample_pin (id : Z) : value :=
  VObj [("id", VNum (Num id));
        ("image_url", VStr "https://i.pinimg.com/originals/x.jpg")].

(** An upstream that never runs out: its [n]-th answer is a page with
    one fresh pin and a bookmark. *)
Definition endless : Platform :=
  {| World := nat;
     http_fetch := fun _ n =>
       (json_response 200
          (VObj [("items", VArr [sample_pin (Z.of_nat n)]);
                 ("bookmark", VStr "more")]),
        S n);
     math_random := fun w => ("0.5", w);
     encodeURIComponent := fun s => Some s;
     string_to_number := decimal_number;
     string_trim := fun s => s;
     url_parse := simple_url |}.

(** A first page with one pin and a bookmark, then a server error. *)
Definition page_then_error : list (option response) :=
  [json_response 200 (VObj [("items", VArr [sample_pin 1]);
                            ("bookmark", VStr "b1")]);
   error_response 500 "boom"].

(** The loop variables and the environment after that first page. *)
Definition after_first_page : paging :=
  Paging [record_of pickImageUrlFromPin (sample_pin 1)] ({["1"]} ∪ ∅)
         (VStr "b1").

Definition env_after_first_page : @env scripted :=
  @Env scripted [error_response 500 "boom"]
       [page_request "pins" (VStr "t") (Num 120) 10000 VNull].

(** A single page without a bookmark. *)
Definition last_page : list (option response) :=
  [json_response 200 (VObj [("items", VArr [sample_pin 1; sample_pin 2])])].

Definition boards_page : value :=
  VObj [("items", VArr [VObj [("id", VStr "A"); ("name", VStr "first")];
                        VObj [("id", VStr "B"); ("name", VStr "second")]])].


(** Two boards that share the pin 2. *)
Definition shared_pin : list (option response) :=
  [json_response 200 boards_page;
   json_response 200 (VObj [("items", VArr [sample_pin 1; sample_pin 2])]);
   json_response 200 (VObj [("items", VArr [sample_pin 2; sample_pin 3])])].

(** The same two boards, the first of which answers a server error. *)
Definition failing_board : list (option response) :=
  [json_response 200 boards_page;
   error_response 500 "boom";
   json_response 200 (VObj [("items", VArr [sample_pin 2; sample_pin 3])])].

(** The environment once the two boards are listed. *)
Definition boards_listed (script : list (option response)) : @env scripted :=
  @Env scripted (tl script) [boards_request (VStr "t") VNull].

(** The record of [sample_pin id]. *)
Definition sample_record (id : Z) : pin :=
  record_of pickImageUrlFromPin (sample_pin id).

(** The request for the first page of a board, asked for [n] pins. *)
Definition first_page_of (board : string) (n : Z) : request :=
  page_request (board_pins_url board) (VStr "t") (Num n) 10000 VNull.

(** A page of 50 pins numbered from [from]. *)
Definition pins_page (from : nat) (more : bool) : value :=
  VObj [("items",
         VArr (List.map (fun i => sample_pin (Z.of_nat i)) (seq from 50)));
        ("bookmark", if more then VStr "next" else VNull)].

(** One board of 250 pins, served in five pages. *)
Definition five_pages : list (option response) :=
  [json_response 200 (pins_page 0 true);
   json_response 200 (pins_page 50 true);
   json_response 200 (pins_page 100 true);
   json_response 200 (pins_page 150 true);
   json_response 200 (pins_page 200 false)].

Definition one_big_board : list (option response) :=
  json_response 200 (VObj [("items", VArr [VObj [("id", VStr "A")]])])
  :: five_pages.


Definition pinimg_url : string := "https://i.pinimg.com/x.png".

(** ** Decimal keys *)

(** No character of [s] is a decimal digit. *)
Fixpoint no_digit (s : string) : bool :=
  match s with
  | EmptyString => true
  | String a s' => negb (is_digit a) && no_digit s'
  end.

(** [s] is empty or starts with a character that is not a digit. *)
Definition stops_run (s : string) : bool :=
  match s with
  | EmptyString => true
  | String a _ => negb (is_digit a)
  end.

(** The record that the boards handler builds from an item. *)
Definition board_info_pure (b : value) : board_info :=
  {| bi_id := to_string (get b "id");
     bi_name := or_ (get b "name") (VStr "");
     bi_description := or_ (get b "description") (VStr "") |}.

(** A listing of one board, followed by its only page of pins. *)
Definition one_small_board : list (option response) :=
  [json_response 200 (VObj [("items", VArr [VObj [("id", VStr "A")]])]);
   json_response 200 (VObj [("items", VArr [sample_pin 1; sample_pin 2])])].

(** An item of the boards listing from which the handler can build an
    entry: it is not [null], and [String] of its [id] returns. *)
Definition listable (b : value) : bool :=
  negb (nullish b) && stringable (get b "id").

(** What the boards handler answers for the item [b]. *)
Definition lists (b : value) (i : board_info) : Prop :=
  bi_name i = or_ (get b "name") (VStr "") /\
  bi_description i = or_ (get b "description") (VStr "") /\
  (prints_exactly (get b "id") = true -> bi_id i = to_string (get b "id")).

(** A listing with a board that has no id. *)
Definition listing_page : value :=
  VObj [("items", VArr [VObj [("id", VStr "A"); ("name", VStr "first")];
                        VObj [("name", VStr "nameless")]])].

Definition listing_without_id : list (option response) :=
  [json_response 200 listing_page].

(** A parser that knows one body. *)
Definition parse_one (body : string) (json : value) (text : string)
    : option value :=
  if String.eqb text body then Some json else None.

(** A search answered with one pin. *)
Definition search_hit : option response :=
  Some {| res_status := 200;
          res_text := Some "one pin";
          res_json := None;
          res_content_type := Some "application/json";
          res_content_length := None;
          res_has_body := true;
          res_bytes := None |}.

Definition one_pin_page : value :=
  VObj [("items",
         VArr [VObj [("id", VStr "7");
                     ("image_url", VStr "https://i.pinimg.com/7.jpg")]])].

(** An image without a declared length. *)
Definition plain_image : response :=
  {| res_status := 200;
     res_text := None;
     res_json := None;
     res_content_type := None;
     res_content_length := None;
     res_has_body := true;
     res_bytes := None |}.

(** * Properties *)

(** ** Image-variant selector *)

Lemma select_step_skip best e :
  usable e = false -> select_step best e = best.
Proof.
  destruct e as [k v]; unfold usable, select_step; simpl.
  intros ->; reflexivity.
Qed.

Lemma select_step_take bu bs e :
  usable e = true ->
  select_step (bu, bs) e =
    if bs <? entry_score e then (get (snd e) "url", entry_score e) else (bu, bs).
Proof.
  destruct e as [k v]; unfold usable, select_step, entry_score; simpl.
  intros ->; reflexivity.
Qed.

(** The scan either keeps the initial best, when no usable entry beats
    it, or ends on the first usable entry of greatest score. *)
Lemma select_scan l : forall bu bs,
  (fold_left select_step l (bu, bs) = (bu, bs) /\
   Forall (fun e => entry_score e <= bs) (List.filter usable l))
  \/
  (exists pre e post,
      List.filter usable l = pre ++ e :: post /\
      fold_left select_step l (bu, bs) = (get (snd e) "url", entry_score e) /\
      bs < entry_score e /\
      Forall (fun x => entry_score x < entry_score e) pre /\
      Forall (fun x => entry_score x <= entry_score e) post).
Proof.
  induction l as [|e l IH]; intros bu bs; simpl.
  - left; split; [reflexivity | constructor].
  - destruct (usable e) eqn:Hu.
    + rewrite select_step_take by assumption.
      destruct (bs <? entry_score e) eqn:Hlt.
      * apply Z.ltb_lt in Hlt.
        destruct (IH (get (snd e) "url") (entry_score e))
          as [[Heq Hall] | (pre & e' & post & Hf & Heq & Hlt' & Hpre & Hpost)].
        -- right. exists [], e, (List.filter usable l).
           split; [reflexivity |]. split; [assumption |].
           split; [assumption |]. split; [constructor | assumption].
        -- right. exists (e :: pre), e', post.
           rewrite Hf, Heq.
           split; [reflexivity |]. split; [reflexivity |].
           split; [lia |]. split; [| assumption].
           constructor; [lia | assumption].
      * apply Z.ltb_ge in Hlt.
        destruct (IH bu bs)
          as [[Heq Hall] | (pre & e' & post & Hf & Heq & Hlt' & Hpre & Hpost)].
        -- left. split; [assumption |]. constructor; assumption.
        -- right. exists (e :: pre), e', post.
           rewrite Hf, Heq.
           split; [reflexivity |]. split; [reflexivity |].
           split; [lia |]. split; [| assumption].
           constructor; [lia | assumption].
    + rewrite select_step_skip by assumption. apply IH.
Qed.

Lemma entries_not_object v :
  negb (truthy v) || negb (typeof_object v) = true -> entries v = [].
Proof. destruct v; simpl; try reflexivity; discriminate. Qed.

(** C1, amended.  On a variant map whose usable entries (a truthy value
    with a truthy [url]) all have a score that is not negative, where
    the score is the area when both dimensions are non-zero numbers,
    else the first run of digits of the key, else 999999: the selector
    returns [null] when no entry is usable, and otherwise the [url] of
    the first usable entry of greatest score, every earlier usable
    entry scoring strictly less. *)
Theorem pickBestImageVariant_first_max (images : value) :
  Forall (fun e => 0 <= entry_score e) (List.filter usable (entries images)) ->
  (List.filter usable (entries images) = [] ->
   pickBestImageVariant images = VNull) /\
  (List.filter usable (entries images) <> [] ->
   exists pre e post,
     List.filter usable (entries images) = pre ++ e :: post /\
     pickBestImageVariant images = get (snd e) "url" /\
     Forall (fun x => entry_score x < entry_score e) pre /\
     Forall (fun x => entry_score x <= entry_score e) post).
Proof.
  intros Hpos. unfold pickBestImageVariant.
  destruct (negb (truthy images) || negb (typeof_object images)) eqn:Hobj.
  - rewrite (entries_not_object _ Hobj). simpl.
    split; [reflexivity | congruence].
  - destruct (select_scan (entries images) VNull (-1))
      as [[Heq Hall] | (pre & e & post & Hf & Heq & Hlt & Hpre & Hpost)].
    + rewrite Heq. simpl. split; [reflexivity |].
      intros Hne. exfalso.
      destruct (List.filter usable (entries images)) as [|x xs]; [congruence |].
      inversion Hpos; inversion Hall; subst. lia.
    + rewrite Heq. simpl. split.
      * intros Hnil. rewrite Hnil in Hf. destruct pre; discriminate.
      * intros _. exists pre, e, post. auto.
Qed.

(** C1, as stated, fails.  A variant whose width is the number 0 has
    the area 0 as its score in the specification, so the first entry
    (area 1) wins there; the program scores it by its key, 1200, and
    returns its [url]. *)
Lemma pickBestImageVariant_zero_width :
  pickBestImageVariant zero_width_map = VStr "B" /\
  spec_select zero_width_map = VStr "A" /\
  pickBestImageVariant zero_width_map <> spec_select zero_width_map.
Proof. repeat split; vm_compute; congruence. Qed.

Lemma first_max_on_sample_map :
  Forall (fun e => 0 <= entry_score e)
         (List.filter usable (entries zero_width_map)) /\
  exists pre e post,
    List.filter usable (entries zero_width_map) = pre ++ e :: post /\
    pickBestImageVariant zero_width_map = get (snd e) "url" /\
    Forall (fun x => entry_score x < entry_score e) pre /\
    Forall (fun x => entry_score x <= entry_score e) post.
Proof.
  assert (H : Forall (fun e => 0 <= entry_score e)
                     (List.filter usable (entries zero_width_map))).
  { repeat (constructor; [vm_compute; discriminate |]). constructor. }
  split; [exact H |].
  apply (pickBestImageVariant_first_max zero_width_map H).
  vm_compute; discriminate.
Defined.

(** ** Pin normaliser *)

Lemma truthy_or a b : truthy (or_ a b) = truthy a || truthy b.
Proof. unfold or_. destruct (truthy a) eqn:E; simpl; [exact E | reflexivity]. Qed.

Section NormalizerFacts.
Context {P : Platform}.
Variable pick : value -> value.

Lemma normalize_pin_nullish p s :
  nullish p = true -> normalize_pin pick p s = (Throw TypeError, s).
Proof. destruct p; simpl; try discriminate; reflexivity. Qed.

Lemma get_strict_ok p k s :
  nullish p = false -> get_strict p k s = (Ret (get p k), s).
Proof. destruct p; simpl; try discriminate; reflexivity. Qed.

Lemma normalize_pin_ok p s :
  nullish p = false ->
  exists r s',
    normalize_pin pick p s = (Ret r, s') /\
    requests s' = requests s /\
    pin_image r = pick p /\
    (truthy (pick p) = true -> r = record_of pick p /\ s' = s).
Proof.
  intros Hn. unfold normalize_pin, bind.
  rewrite (get_strict_ok _ _ _ Hn).
  destruct (truthy (or_ (get p "id") (pick p))) eqn:Ht.
  - eexists _, s. unfold ret. split; [reflexivity |].
    split; [reflexivity |]. split; [reflexivity |].
    intros _. split; reflexivity.
  - unfold random_string, ret.
    destruct (math_random (world s)) as [r w] eqn:Hr.
    eexists _, _. split; [reflexivity |]. split; [reflexivity |].
    split; [reflexivity |].
    intros Hp. rewrite truthy_or, Hp, orb_true_r in Ht. discriminate.
Qed.

Lemma map_M_cons {A B} (f : A -> M B) a l :
  map_M f (a :: l) = (do b <- f a; do bs <- map_M f l; ret (b :: bs)).
Proof. reflexivity. Qed.

(** [items.map(...)] throws at the first nullish item, and otherwise
    builds one record per item; the records that keep an image are
    the [record_of] the items whose image resolves, in order. *)
Lemma map_M_normalize items : forall s,
  (Exists (fun p => nullish p = true) items /\
   exists s', map_M (normalize_pin pick) items s = (Throw TypeError, s') /\
              requests s' = requests s)
  \/
  (Forall (fun p => nullish p = false) items /\
   exists recs s',
     map_M (normalize_pin pick) items s = (Ret recs, s') /\
     requests s' = requests s /\
     List.filter has_image recs =
       List.map (record_of pick) (List.filter (resolves pick) items)).
Proof.
  induction items as [|p items IH]; intros s.
  - right. split; [constructor |]. exists [], s. auto.
  - destruct (nullish p) eqn:Hn.
    + left. split; [left; assumption |]. exists s.
      rewrite map_M_cons. unfold bind.
      rewrite (normalize_pin_nullish _ _ Hn). auto.
    + destruct (normalize_pin_ok p s Hn) as (r & s1 & Hr & Hq & Hi & Hrec).
      assert (Hc : forall k : pin -> M (list pin),
                 bind (normalize_pin pick p) k s = k r s1)
        by (intros k; unfold bind; rewrite Hr; reflexivity).
      rewrite map_M_cons.
      destruct (IH s1) as [[Hex (s2 & Hm & Hq2)]
                          | [Hall (recs & s2 & Hm & Hq2 & Hf)]].
      * left. split; [right; assumption |]. exists s2.
        rewrite Hc. unfold bind. rewrite Hm.
        split; [reflexivity | congruence].
      * right. split; [constructor; assumption |].
        exists (r :: recs), s2. rewrite Hc. unfold bind. rewrite Hm.
        unfold ret.
        split; [reflexivity |]. split; [congruence |].
        simpl. unfold has_image at 1, resolves at 1. rewrite Hi.
        destruct (truthy (pick p)) eqn:Hp; [| assumption].
        destruct (Hrec eq_refl) as [-> _]. simpl. rewrite Hf. reflexivity.
Qed.

Lemma normalize_pins_cases json s :
  (Exists (fun p => nullish p = true) (items_of json) /\
   exists s', normalize_pins pick json s = (Throw TypeError, s') /\
              requests s' = requests s)
  \/
  (Forall (fun p => nullish p = false) (items_of json) /\
   exists s',
     normalize_pins pick json s =
       (Ret (List.map (record_of pick)
                      (List.filter (resolves pick) (items_of json))), s') /\
     requests s' = requests s).
Proof.
  unfold normalize_pins, bind.
  destruct (map_M_normalize (items_of json) s)
    as [[Hex (s' & Hm & Hq)] | [Hall (recs & s' & Hm & Hq & Hf)]].
  - left. split; [assumption |]. exists s'. rewrite Hm. auto.
  - right. split; [assumption |]. exists s'. rewrite Hm. unfold ret.
    rewrite Hf. auto.
Qed.

Lemma normalize_pins_requests json s r s' :
  normalize_pins pick json s = (r, s') -> requests s' = requests s.
Proof.
  intros H.
  destruct (normalize_pins_cases json s)
    as [[_ (s1 & H1 & Hq)] | [_ (s1 & H1 & Hq)]];
    rewrite H1 in H; inversion H; subst; assumption.
Qed.
End NormalizerFacts.

Lemma pickBestImageVariant_falsy v :
  truthy v = false -> pickBestImageVariant v = VNull.
Proof. intros H. unfold pickBestImageVariant. rewrite H. reflexivity. Qed.

(** The image of a pin is the first truthy one of: the best variant of
    [media.images], the best variant of [images], [image_url],
    [thumbnail_url]; it is [null] when none is, or when the pin is not
    an object. *)
Lemma pickImageUrlFromPin_order pin :
  pickImageUrlFromPin pin =
    if truthy pin && typeof_object pin
    then first_truthy (image_candidates pin)
    else VNull.
Proof.
  unfold pickImageUrlFromPin, image_candidates, first_truthy.
  destruct (truthy pin); [| reflexivity].
  destruct (typeof_object pin); [| reflexivity]. simpl.
  destruct (truthy (get (get pin "media") "images")) eqn:Hm; simpl.
  - destruct (truthy (pickBestImageVariant _)); [reflexivity |].
    destruct (truthy (get pin "images")) eqn:Hi; simpl; [reflexivity |].
    rewrite (pickBestImageVariant_falsy _ Hi). reflexivity.
  - rewrite (pickBestImageVariant_falsy _ Hm). simpl.
    destruct (truthy (get pin "images")) eqn:Hi; simpl; [reflexivity |].
    rewrite (pickBestImageVariant_falsy _ Hi). reflexivity.
Qed.

(** C7 on a page with a [null] item: although [pickImageUrlFromPin]
    answers [null] for such an item, which would drop it, the callback
    reads [p.id] of it, and the whole normalisation throws a
    [TypeError], whatever the other items are. *)
Theorem normalize_null_item_throws {P : Platform} (json : value) (s : env) :
  Exists (fun p => nullish p = true) (items_of json) ->
  pickImageUrlFromPin VNull = VNull /\
  exists s', normalizePinsFromPinterest json s = (Throw TypeError, s').
Proof.
  intros Hex. split; [reflexivity |].
  unfold normalizePinsFromPinterest.
  destruct (normalize_pins_cases pickImageUrlFromPin json s)
    as [[_ (s' & Hn & _)] | [Hall _]].
  - exists s'. exact Hn.
  - exfalso. apply Exists_exists in Hex. destruct Hex as (p & Hin & Hp).
    rewrite Forall_forall in Hall. rewrite (Hall p Hin) in Hp. discriminate.
Qed.

Lemma null_item_after_a_pin :
  Exists (fun p => nullish p = true) (items_of null_item_page) /\
  pickImageUrlFromPin VNull = VNull /\
  exists s',
    @normalizePinsFromPinterest scripted null_item_page (start [])
      = (Throw TypeError, s').
Proof.
  assert (H : Exists (fun p => nullish p = true) (items_of null_item_page))
    by (right; left; reflexivity).
  split; [exact H |].
  exact (@normalize_null_item_throws scripted null_item_page (start []) H).
Defined.

Lemma or_id_image (idv image : value) :
  to_string (or_ idv image) =
    if truthy idv then to_string idv else to_string image.
Proof. unfold or_. destruct (truthy idv); reflexivity. Qed.

Lemma first_string_url_string vs u :
  Legacy.first_string_url vs = Some u -> exists t, u = VStr t.
Proof.
  induction vs as [|v vs IH]; simpl; [discriminate |].
  unfold Legacy.string_url.
  destruct (get v "url") eqn:Hu;
    rewrite ?andb_false_r; try exact IH.
  destruct (truthy v && typeof_object v); simpl; [| exact IH].
  intros [= <-]. eauto.
Qed.

Lemma first_preferred_string images keys u :
  Legacy.first_preferred images keys = Some u -> exists t, u = VStr t.
Proof.
  induction keys as [|k keys IH]; simpl; [discriminate |].
  unfold Legacy.keyed_string_url.
  destruct (get (get images k) "url") eqn:Hu;
    rewrite ?andb_false_r; try exact IH.
  destruct (truthy (get images k)); simpl; [| exact IH].
  intros [= <-]. eauto.
Qed.

Lemma scalar_fallback_string p :
  (exists t, Legacy.scalar_fallback p = VStr t) \/
  Legacy.scalar_fallback p = VNull.
Proof.
  unfold Legacy.scalar_fallback, Legacy.is_string.
  destruct (get p "image_url"); eauto;
    destruct (get p "thumbnail_url"); eauto;
    destruct (get p "link"); eauto;
    destruct (Legacy.pinimg_link _); eauto.
Qed.

Lemma legacy_images_string p :
  (exists t, Legacy.legacy_images p = VStr t) \/
  Legacy.legacy_images p = VNull.
Proof.
  unfold Legacy.legacy_images.
  destruct (truthy (get p "images") && typeof_object (get p "images"));
    [| apply scalar_fallback_string].
  destruct (Legacy.first_preferred _ _) eqn:H1;
    [left; eapply first_preferred_string; eassumption |].
  destruct (Legacy.first_string_url _) eqn:H2;
    [left; eapply first_string_url_string; eassumption |].
  apply scalar_fallback_string.
Qed.

(** The old [pickImageUrlFromPin] only ever returns a string or [null]. *)
Lemma legacy_pick_string p :
  (exists t, Legacy.pickImageUrlFromPin p = VStr t) \/
  Legacy.pickImageUrlFromPin p = VNull.
Proof.
  unfold Legacy.pickImageUrlFromPin.
  destruct (negb (truthy p) || negb (typeof_object p)); [right; reflexivity |].
  match goal with
  | |- context [if ?c then _ else _] => destruct c
  end; [| apply legacy_images_string].
  destruct (Legacy.first_string_url _) eqn:H1;
    [left; eapply first_string_url_string; eassumption |].
  apply legacy_images_string.
Qed.

Lemma kept_records (pick : value -> value) (items : list value) :
  Forall (fun r => exists p,
              In p items /\ r = record_of pick p /\
              truthy (pin_image r) = true /\
              pin_id r = if truthy (get p "id") then to_string (get p "id")
                         else to_string (pin_image r))
         (List.map (record_of pick) (List.filter (resolves pick) items)).
Proof.
  apply Forall_forall. intros r Hin.
  apply list_elem_of_In, in_map_iff in Hin. destruct Hin as (p & <- & Hp).
  apply filter_In in Hp. destruct Hp as [Hp Hres].
  exists p. split; [assumption |]. split; [reflexivity |].
  split; [exact Hres |]. simpl. apply or_id_image.
Qed.

(** The records of the normaliser.  When it returns, every record of
    its output is a function of one item of [items] alone (no random
    number enters it), its image is truthy, and its id is the text of
    the upstream id when that id is truthy and the text of the image
    otherwise.  With the [pickImageUrlFromPin] of [server/index.js] the
    image is moreover a non-empty string and the id falls back to that
    very string.  The normaliser only fails with a [TypeError]. *)
Lemma normalized_records_image_and_id {P : Platform} (json : value) (s : env) :
  match normalizePinsFromPinterest json s with
  | (Ret recs, _) =>
      Forall (fun r => exists p,
                  In p (items_of json) /\
                  r = record_of pickImageUrlFromPin p /\
                  truthy (pin_image r) = true /\
                  pin_id r = if truthy (get p "id") then to_string (get p "id")
                             else to_string (pin_image r)) recs
  | (Throw e, _) => e = TypeError
  end /\
  match Legacy.normalizePinsFromPinterest json s with
  | (Ret recs, _) =>
      Forall (fun r => exists p u,
                  In p (items_of json) /\
                  r = record_of Legacy.pickImageUrlFromPin p /\
                  pin_image r = VStr u /\ u <> "" /\
                  pin_id r = if truthy (get p "id") then to_string (get p "id")
                             else u) recs
  | (Throw e, _) => e = TypeError
  end.
Proof.
  split.
  - unfold normalizePinsFromPinterest.
    destruct (normalize_pins_cases pickImageUrlFromPin json s)
      as [[_ (s' & -> & _)] | [_ (s' & -> & _)]]; [reflexivity |].
    apply kept_records.
  - unfold Legacy.normalizePinsFromPinterest.
    destruct (normalize_pins_cases Legacy.pickImageUrlFromPin json s)
      as [[_ (s' & -> & _)] | [_ (s' & -> & _)]]; [reflexivity |].
    eapply Forall_impl; [apply kept_records |].
    intros r (p & Hin & Hr & Ht & Hid).
    assert (Hi : pin_image r = Legacy.pickImageUrlFromPin p)
      by (rewrite Hr; reflexivity).
    destruct (legacy_pick_string p) as [[u Hu] | Hnull].
    + exists p, u. rewrite Hi, Hu in *. simpl in Hid.
      repeat split; try assumption.
      intros ->. discriminate.
    + rewrite Hi, Hnull in Ht. discriminate.
Qed.

(** C10 on a page with an item whose image resolves to a truthy value
    that is not a string: whenever the normaliser returns, the record
    of that item is in its output, and the image of the record is that
    value, not a string.  The url fields are tested for truthiness
    only.  The [pickImageUrlFromPin] of [server/index.js] tests
    [typeof === 'string'] on every path, and with it the image of
    every record is a string. *)
Theorem normalized_image_untyped {P : Platform} (json : value) (s : env)
    (recs : list pin) (s' : env) (p : value) :
  normalizePinsFromPinterest json s = (Ret recs, s') ->
  In p (items_of json) ->
  truthy (pickImageUrlFromPin p) = true ->
  (forall u, pickImageUrlFromPin p <> VStr u) ->
  (exists r, In r recs /\
             pin_image r = pickImageUrlFromPin p /\
             forall u, pin_image r <> VStr u) /\
  match Legacy.normalizePinsFromPinterest json s with
  | (Ret recs', _) => Forall (fun r => exists u, pin_image r = VStr u) recs'
  | (Throw e, _) => e = TypeError
  end.
Proof.
  intros Hn Hin Ht Hs. split.
  - unfold normalizePinsFromPinterest in Hn.
    destruct (normalize_pins_cases pickImageUrlFromPin json s)
      as [[_ (s1 & H1 & _)] | [_ (s1 & H1 & _)]];
      rewrite H1 in Hn; [discriminate |].
    injection Hn as <- _.
    exists (record_of pickImageUrlFromPin p).
    split; [| split; [reflexivity | exact Hs]].
    apply in_map. apply filter_In. split; [assumption | exact Ht].
  - unfold Legacy.normalizePinsFromPinterest.
    destruct (normalize_pins_cases Legacy.pickImageUrlFromPin json s)
      as [[_ (s1 & -> & _)] | [_ (s1 & -> & _)]]; [reflexivity |].
    apply Forall_forall. intros r Hr.
    apply list_elem_of_In, in_map_iff in Hr. destruct Hr as (q & <- & Hq).
    apply filter_In in Hq. destruct Hq as [_ Hres].
    unfold resolves in Hres. simpl.
    destruct (legacy_pick_string q) as [[u Hu] | Hnull];
      [exists u; exact Hu |].
    rewrite Hnull in Hres. discriminate.
Qed.


Lemma numeric_image_is_kept :
  (exists r,
      In r [record_of pickImageUrlFromPin (VObj [("image_url", VNum (Num 42))])] /\
      pin_image r = pickImageUrlFromPin (VObj [("image_url", VNum (Num 42))]) /\
      forall u, pin_image r <> VStr u) /\
  match @Legacy.normalizePinsFromPinterest scripted numeric_image_page (start [])
  with
  | (Ret recs', _) => Forall (fun r => exists u, pin_image r = VStr u) recs'
  | (Throw e, _) => e = TypeError
  end.
Proof.
  apply (@normalized_image_untyped scripted numeric_image_page (start [])
           [record_of pickImageUrlFromPin (VObj [("image_url", VNum (Num 42))])]
           (start []) (VObj [("image_url", VNum (Num 42))])).
  - vm_compute. reflexivity.
  - left. reflexivity.
  - reflexivity.
  - intros u. vm_compute. discriminate.
Defined.

(** ** Deduplication *)

Lemma tracks_empty : tracks [] ∅.
Proof.
  split; [constructor |]. intros x. simpl. split; [set_solver | tauto].
Qed.

Lemma tracks_push out seen p :
  tracks out seen -> pin_id p ∉ seen ->
  tracks (out ++ [p]) ({[pin_id p]} ∪ seen).
Proof.
  intros [Hnd Hs] Hp. split.
  - rewrite map_app. simpl. apply NoDup_app. split; [assumption |]. split.
    + intros x Hx Hx'. apply list_elem_of_In in Hx.
      apply list_elem_of_singleton in Hx'. subst x.
      apply Hp, Hs, Hx.
    + apply NoDup_singleton.
  - intros x. rewrite map_app, in_app_iff, elem_of_union, elem_of_singleton.
    simpl. rewrite Hs. intuition.
Qed.

(** One run of the merging loop: it extends [out] by a subsequence of
    [ps], keeps the ids distinct, and leaves out an id of [ps] only
    when [out] became full. *)
Lemma append_unseen_spec full ps : forall out seen,
  tracks out seen ->
  exists chunk,
    fst (append_unseen full ps out seen) = out ++ chunk /\
    sublist chunk ps /\
    tracks (fst (append_unseen full ps out seen))
           (snd (append_unseen full ps out seen)) /\
    (forall p, In p ps ->
       In (pin_id p) (List.map pin_id (fst (append_unseen full ps out seen)))
       \/ full (length (fst (append_unseen full ps out seen))) = true).
Proof.
  induction ps as [|p ps IH]; intros out seen Ht; simpl.
  - exists []. rewrite app_nil_r. repeat split; try apply Ht.
    + constructor.
    + intros p [].
  - destruct (full (length out)) eqn:Hfull; simpl.
    + exists []. rewrite app_nil_r. repeat split; try apply Ht.
      * apply sublist_nil_l.
      * intros; right; assumption.
    + destruct (decide (pin_id p ∈ seen)) as [Hin | Hnin].
      * destruct (IH out seen Ht) as (chunk & Heq & Hsub & Ht' & Hall).
        exists chunk. split; [assumption |].
        split; [apply sublist_cons; assumption |].
        split; [assumption |].
        intros q [<- | Hq]; [| apply Hall; assumption].
        left. rewrite Heq, map_app, in_app_iff. left. apply Ht, Hin.
      * destruct (IH (out ++ [p]) ({[pin_id p]} ∪ seen)
                     (tracks_push _ _ _ Ht Hnin))
          as (chunk & Heq & Hsub & Ht' & Hall).
        exists (p :: chunk). split.
        { rewrite Heq, <- app_assoc. reflexivity. }
        split; [apply sublist_skip; assumption |].
        split; [assumption |].
        intros q [<- | Hq]; [| apply Hall; assumption].
        left. rewrite Heq, !map_app, !in_app_iff. left. right. left. reflexivity.
Qed.

Lemma NoDup_firstn {A} (n : nat) (l : list A) : NoDup l -> NoDup (firstn n l).
Proof. intros H. exact (sublist_NoDup _ _ H (sublist_take l n)). Qed.

Lemma NoDup_ids_firstn (n : nat) (out : list pin) :
  NoDup (List.map pin_id out) -> NoDup (List.map pin_id (firstn n out)).
Proof. rewrite <- firstn_map. apply NoDup_firstn. Qed.

(** ** Paged collection fetcher *)

Section PagedFacts.
Context {P : Platform}.
Variables (endpointBase : string) (accessToken : value)
          (limit : num) (timeoutMs : Z).

Abbreviation turn := (fetch_page endpointBase accessToken limit timeoutMs).
Abbreviation loop := (pages_loop endpointBase accessToken limit timeoutMs).
Abbreviation request_of :=
  (page_request endpointBase accessToken limit timeoutMs).
Abbreviation full := (page_full limit).

(** Every turn of the loop issues exactly one request. *)
Lemma fetch_page_log st s r s' :
  turn st s = (r, s') ->
  requests s' = requests s ++ [request_of (pg_bookmark st)].
Proof.
  unfold fetch_page, bind, fetchWithTimeout.
  destruct (http_fetch _ (world s)) as [[res|] w]; simpl;
    [| intros [= <- <-]; reflexivity].
  destruct (res_ok res); simpl; [| intros [= <- <-]; reflexivity].
  destruct (res_json res) as [json|]; simpl;
    [| intros [= <- <-]; reflexivity].
  destruct (normalizePinsFromPinterest json _) as [[n|e] s2] eqn:Hn;
    apply normalize_pins_requests in Hn; simpl in Hn.
  - destruct (append_unseen _ _ _ _). intros [= <- <-]. assumption.
  - intros [= <- <-]. assumption.
Qed.

(** A page with a non-success status aborts the turn with the status
    and the body text. *)
Lemma fetch_page_not_ok st s res w :
  http_fetch (request_of (pg_bookmark st)) (world s) = (Some res, w) ->
  res_ok res = false ->
  turn st s =
    (Throw (ApiError (res_status res) (default "" (res_text res))),
     Env w (requests s ++ [request_of (pg_bookmark st)])).
Proof.
  intros Hf Hok. unfold fetch_page, bind, fetchWithTimeout.
  rewrite Hf. simpl. rewrite Hok. reflexivity.
Qed.

(** What a successful turn did. *)
Lemma fetch_page_ret st s st' more s' :
  turn st s = (Ret (st', more), s') ->
  exists res w json normalized,
    http_fetch (request_of (pg_bookmark st)) (world s) = (Some res, w) /\
    res_ok res = true /\ res_json res = Some json /\
    normalizePinsFromPinterest json
      (Env w (requests s ++ [request_of (pg_bookmark st)]))
      = (Ret normalized, s') /\
    pg_out st' = fst (append_unseen full normalized
                                    (pg_out st) (pg_seen st)) /\
    pg_seen st' = snd (append_unseen full normalized
                                     (pg_out st) (pg_seen st)) /\
    pg_bookmark st' = next_bookmark json /\
    more = truthy (next_bookmark json).
Proof.
  unfold fetch_page, bind, fetchWithTimeout.
  destruct (http_fetch _ (world s)) as [[res|] w]; simpl; [| discriminate].
  destruct (res_ok res) eqn:Hok; simpl; [| discriminate].
  destruct (res_json res) as [json|] eqn:Hj; simpl; [| discriminate].
  destruct (normalizePinsFromPinterest json _) as [[n|e] s2] eqn:Hn;
    [| discriminate].
  destruct (append_unseen _ n _ _) as [out seen] eqn:Ha.
  intros [= <- <- <-]. exists res, w, json, n.
  rewrite Ha. simpl. auto 10.
Qed.

Lemma fetch_page_tracks st s st' more s' :
  tracks (pg_out st) (pg_seen st) ->
  turn st s = (Ret (st', more), s') ->
  tracks (pg_out st') (pg_seen st') /\
  exists chunk, pg_out st' = pg_out st ++ chunk.
Proof.
  intros Ht H.
  destruct (fetch_page_ret _ _ _ _ _ H)
    as (res & w & json & n & _ & _ & _ & _ & Ho & Hs & _ & _).
  destruct (append_unseen_spec full n _ _ Ht)
    as (chunk & Heq & _ & Ht' & _).
  rewrite Ho, Hs. split; [assumption |]. exists chunk. assumption.
Qed.

Lemma pages_loop_unfold budget st :
  loop (S budget) st =
    if full (length (pg_out st)) then ret (pg_out st)
    else do r <- turn st;
         if snd r then loop budget (fst r) else ret (pg_out (fst r)).
Proof. reflexivity. Qed.

(** The loop issues at most [budget] requests. *)
Lemma pages_loop_log budget : forall st s r s',
  loop budget st s = (r, s') ->
  exists new, requests s' = requests s ++ new /\ (length new <= budget)%nat.
Proof.
  induction budget as [|budget IH]; intros st s r s' H.
  - inversion H; subst. exists []. rewrite app_nil_r. auto.
  - rewrite pages_loop_unfold in H.
    destruct (full (length (pg_out st))).
    + inversion H; subst. exists []. rewrite app_nil_r. simpl. split; [auto | lia].
    + unfold bind in H.
      destruct (turn st s) as [[[st1 more]|e] s1] eqn:Hp;
        apply fetch_page_log in Hp; simpl in H.
      * destruct more.
        -- apply IH in H. destruct H as (new & Hq & Hlen).
           exists (request_of (pg_bookmark st) :: new).
           rewrite Hq, Hp, <- app_assoc. simpl. split; [reflexivity | lia].
        -- inversion H; subst. exists [request_of (pg_bookmark st)].
           simpl. split; [assumption | lia].
      * inversion H; subst. exists [request_of (pg_bookmark st)].
        simpl. split; [assumption | lia].
Qed.

Lemma pages_loop_tracks budget : forall st s out s',
  tracks (pg_out st) (pg_seen st) ->
  loop budget st s = (Ret out, s') ->
  NoDup (List.map pin_id out).
Proof.
  induction budget as [|budget IH]; intros st s out s' Ht H.
  - inversion H; subst. apply Ht.
  - rewrite pages_loop_unfold in H.
    destruct (full (length (pg_out st))).
    + inversion H; subst. apply Ht.
    + unfold bind in H.
      destruct (turn st s) as [[[st1 more]|e] s1] eqn:Hp;
        simpl in H; [| discriminate].
      destruct (fetch_page_tracks _ _ _ _ _ Ht Hp) as [Ht1 _].
      destruct more.
      * eapply IH; eassumption.
      * inversion H; subst. apply Ht1.
Qed.

Lemma fetchPinsPaged_ret s pins s' :
  fetchPinsPaged endpointBase accessToken limit timeoutMs s = (Ret pins, s') ->
  exists out,
    loop 50 (Paging [] ∅ VNull) s = (Ret out, s') /\
    pins = firstn (Z.to_nat (safeLimit limit)) out.
Proof.
  unfold fetchPinsPaged, bind.
  destruct (pages_loop _ _ _ _ 50 _ s) as [[out|e] s1];
    [| discriminate].
  intros [= <- <-]. exists out. auto.
Qed.

Lemma fetchPinsPaged_NoDup s pins s' :
  fetchPinsPaged endpointBase accessToken limit timeoutMs s = (Ret pins, s') ->
  NoDup (List.map pin_id pins).
Proof.
  intros H. destruct (fetchPinsPaged_ret _ _ _ H) as (out & Hl & ->).
  apply NoDup_ids_firstn.
  eapply pages_loop_tracks; [| exact Hl]. apply tracks_empty.
Qed.

Lemma fetchPinsPaged_log s r s' :
  fetchPinsPaged endpointBase accessToken limit timeoutMs s = (r, s') ->
  exists new, requests s' = requests s ++ new /\ (length new <= 50)%nat.
Proof.
  unfold fetchPinsPaged, bind.
  destruct (pages_loop _ _ _ _ 50 _ s) as [[out|e] s1] eqn:Hl;
    intros [= <- <-]; eapply pages_loop_log; eassumption.
Qed.
End PagedFacts.


(** C5.  One call of [fetchPinsPaged] appends at most 50 requests to
    the log, whatever the upstream answers and however the call ends.
    At the loop head, the loop returns without any request once [out]
    holds [safeLimit] records; and when a page comes back without a
    truthy bookmark, the request for that page is the last one. *)
Theorem fetchPinsPaged_at_most_50_requests {P : Platform}
    (endpointBase : string) (accessToken : value) (limit : num) (timeoutMs : Z) :
  (forall s, exists new,
      requests (snd (fetchPinsPaged endpointBase accessToken limit timeoutMs s))
        = requests s ++ new /\
      (length new <= 50)%nat) /\
  (forall budget st s,
      (safeLimit limit <= Z.of_nat (length (pg_out st))) ->
      pages_loop endpointBase accessToken limit timeoutMs budget st s
        = (Ret (pg_out st), s)) /\
  (forall budget st s res w json,
      (Z.of_nat (length (pg_out st)) < safeLimit limit) ->
      http_fetch (page_request endpointBase accessToken limit timeoutMs
                               (pg_bookmark st)) (world s) = (Some res, w) ->
      res_ok res = true ->
      res_json res = Some json ->
      truthy (next_bookmark json) = false ->
      requests (snd (pages_loop endpointBase accessToken limit timeoutMs
                                (S budget) st s))
        = requests s ++ [page_request endpointBase accessToken limit timeoutMs
                                      (pg_bookmark st)]).
Proof.
  split; [| split].
  - intros s.
    destruct (fetchPinsPaged endpointBase accessToken limit timeoutMs s)
      as [r s'] eqn:H.
    exact (fetchPinsPaged_log _ _ _ _ _ _ _ H).
  - intros budget st s Hfull.
    assert (Hf : page_full limit (length (pg_out st)) = true)
      by (apply Z.leb_le; assumption).
    destruct budget; [reflexivity |].
    rewrite pages_loop_unfold, Hf. reflexivity.
  - intros budget st s res w json Hlt Hf Hok Hj Hb.
    assert (Hnf : page_full limit (length (pg_out st)) = false)
      by (apply Z.leb_gt; assumption).
    rewrite pages_loop_unfold, Hnf. unfold bind.
    destruct (fetch_page endpointBase accessToken limit timeoutMs st s)
      as [[[st1 more]|e] s1] eqn:Hp.
    + pose proof (fetch_page_log _ _ _ _ _ _ _ _ Hp) as Hlog.
      destruct (fetch_page_ret _ _ _ _ _ _ _ _ _ Hp)
        as (res' & w' & json' & n & Hf' & _ & Hj' & _ & _ & _ & _ & Hm).
      rewrite Hf in Hf'. injection Hf' as <- <-.
      rewrite Hj in Hj'. injection Hj' as <-.
      rewrite Hb in Hm. subst more. simpl. assumption.
    + simpl. exact (fetch_page_log _ _ _ _ _ _ _ _ Hp).
Qed.

Lemma request_bound_on_samples :
  (exists new,
      requests (snd (@fetchPinsPaged endless "pins" (VStr "t") (Num 500) 10000
                                     (@Env endless 0%nat [])))
        = [] ++ new /\
      (length new <= 50)%nat) /\
  @pages_loop endless "pins" (VStr "t") (Num 0) 10000 7
      (Paging [Pin "1" VNull VNull (VStr "u")] ∅ VNull) (@Env endless 0%nat [])
    = (Ret [Pin "1" VNull VNull (VStr "u")], @Env endless 0%nat []) /\
  requests (snd (@pages_loop scripted "pins" (VStr "t") (Num 120) 10000 50
                             (Paging [] ∅ VNull) (start last_page)))
    = [] ++ [page_request "pins" (VStr "t") (Num 120) 10000 VNull].
Proof.
  split; [| split].
  - apply (@fetchPinsPaged_at_most_50_requests endless).
  - apply (@fetchPinsPaged_at_most_50_requests endless). vm_compute. discriminate.
  - eapply (@fetchPinsPaged_at_most_50_requests scripted);
      [reflexivity | reflexivity | reflexivity | reflexivity | reflexivity].
Defined.

Lemma endless_upstream_stops_at_50 :
  length (requests (snd (@fetchPinsPaged endless "pins" (VStr "t") (Num 500)
                                         10000 (@Env endless 0%nat []))))
  = 50%nat.
Proof. vm_compute. reflexivity. Qed.

Section AbortFacts.
Context {P : Platform}.
Variables (endpointBase : string) (accessToken : value)
          (limit : num) (timeoutMs : Z).

(** The turns of a run are the leading turns of the loop. *)
Lemma turns_loop budget st s budget' st' s' :
  turns endpointBase accessToken limit timeoutMs budget st s budget' st' s' ->
  pages_loop endpointBase accessToken limit timeoutMs budget st s =
  pages_loop endpointBase accessToken limit timeoutMs budget' st' s'.
Proof.
  induction 1 as [| budget st s st1 s1 budget' st' s' Hnf Hp _ IH];
    [reflexivity |].
  rewrite pages_loop_unfold, Hnf. unfold bind. rewrite Hp. simpl. exact IH.
Qed.
End AbortFacts.

(** C6.  Let a call of [fetchPinsPaged] reach, after any number of
    successful pages, a turn whose page request is answered with a
    non-success status.  Then the call throws the error that carries
    that status and the body text (empty when the text cannot be read),
    whatever records [out] held at that turn: none of them is
    returned. *)
Theorem fetchPinsPaged_aborts_on_error_page {P : Platform}
    (endpointBase : string) (accessToken : value) (limit : num) (timeoutMs : Z)
    (s0 : env) (budget : nat) (st : paging) (s : env)
    (res : response) (w : World) :
  turns endpointBase accessToken limit timeoutMs
        50 (Paging [] ∅ VNull) s0 (S budget) st s ->
  Z.of_nat (length (pg_out st)) < safeLimit limit ->
  http_fetch (page_request endpointBase accessToken limit timeoutMs
                           (pg_bookmark st)) (world s) = (Some res, w) ->
  res_ok res = false ->
  fetchPinsPaged endpointBase accessToken limit timeoutMs s0 =
    (Throw (ApiError (res_status res) (default "" (res_text res))),
     Env w (requests s ++ [page_request endpointBase accessToken limit
                                        timeoutMs (pg_bookmark st)])).
Proof.
  intros Hturns Hlt Hf Hok.
  assert (Hnf : page_full limit (length (pg_out st)) = false)
    by (apply Z.leb_gt; assumption).
  unfold fetchPinsPaged, bind.
  rewrite (turns_loop _ _ _ _ _ _ _ _ _ _ Hturns).
  rewrite pages_loop_unfold, Hnf. unfold bind.
  rewrite (fetch_page_not_ok _ _ _ _ _ _ _ _ Hf Hok). reflexivity.
Qed.

Lemma abort_on_second_page :
  @fetchPinsPaged scripted "pins" (VStr "t") (Num 120) 10000
                  (start page_then_error)
  = (Throw (ApiError 500 "boom"),
     @Env scripted []
          [page_request "pins" (VStr "t") (Num 120) 10000 VNull;
           page_request "pins" (VStr "t") (Num 120) 10000 (VStr "b1")]).
Proof.
  apply (@fetchPinsPaged_aborts_on_error_page scripted
           "pins" (VStr "t") (Num 120) 10000 (start page_then_error)
           48%nat after_first_page env_after_first_page
           (error_body 500 "boom") []).
  - eapply turns_next; [reflexivity | | apply turns_here].
    vm_compute. reflexivity.
  - reflexivity.
  - reflexivity.
  - reflexivity.
Defined.

(** ** Order of the pages *)

Section PageOrder.
Context {P : Platform}.
Variables (endpointBase : string) (accessToken : value)
          (limit : num) (timeoutMs : Z).

Lemma pages_loop_assembled budget : forall st s out s',
  tracks (pg_out st) (pg_seen st) ->
  pages_loop endpointBase accessToken limit timeoutMs budget st s
    = (Ret out, s') ->
  exists added,
    out = pg_out st ++ added /\
    assembled_pages endpointBase accessToken limit timeoutMs
                    budget (pg_bookmark st) s added.
Proof.
  induction budget as [|budget IH]; intros st s out s' Ht H.
  - inversion H; subst. exists []. rewrite app_nil_r. split; [auto | constructor].
  - rewrite pages_loop_unfold in H.
    destruct (page_full limit (length (pg_out st))).
    + inversion H; subst. exists []. rewrite app_nil_r.
      split; [auto | constructor].
    + unfold bind in H.
      destruct (fetch_page endpointBase accessToken limit timeoutMs st s)
        as [[[st1 more]|e] s1] eqn:Hp; simpl in H; [| discriminate].
      destruct (fetch_page_ret _ _ _ _ _ _ _ _ _ Hp)
        as (res & w & json & n & Hf & _ & Hj & Hn & Ho & Hs & Hb & Hm).
      destruct (append_unseen_spec (page_full limit) n _ _ Ht)
        as (chunk & Heq & Hsub & Ht' & _).
      rewrite <- Ho in Heq. rewrite <- Ho, <- Hs in Ht'.
      destruct more.
      * destruct (IH _ _ _ _ Ht' H) as (added & -> & Ha).
        exists (chunk ++ added). rewrite Heq, <- app_assoc.
        split; [reflexivity |].
        rewrite Hb in Ha. econstructor; eassumption.
      * inversion H; subst. exists (chunk ++ []). rewrite app_nil_r.
        split; [assumption |].
        rewrite <- (app_nil_r chunk). econstructor; try eassumption.
        constructor.
Qed.
End PageOrder.

(** ** Multi-board aggregator *)

Section AggregatorFacts.
Context {P : Platform}.
Variables (accessToken : value) (limit : num).

Abbreviation collect := (collect_boards accessToken limit).
Abbreviation board_pins := (fetch_board_pins accessToken limit).
Abbreviation guarded := (try_board accessToken limit).

Lemma collect_boards_unfold b bs out seen :
  collect (b :: bs) out seen =
    if agg_full limit (length out) then ret out
    else do r <- guarded b out seen; collect bs (fst r) (snd r).
Proof. reflexivity. Qed.

Lemma guarded_throw b out seen s e s1 :
  board_pins b (length out) s = (Throw e, s1) ->
  guarded b out seen s = (Ret (out, seen), s1).
Proof.
  intros H. unfold try_board, try_catch, fetch_board, bind. rewrite H.
  reflexivity.
Qed.

Lemma guarded_ret b out seen s pins s1 :
  board_pins b (length out) s = (Ret pins, s1) ->
  guarded b out seen s =
    (Ret (append_unseen (agg_full limit) pins out seen), s1).
Proof.
  intros H. unfold try_board, try_catch, fetch_board, bind. rewrite H.
  reflexivity.
Qed.

(** A board whose fetch throws is skipped. *)
Lemma collect_boards_skip b bs out seen s e s1 :
  agg_full limit (length out) = false ->
  board_pins b (length out) s = (Throw e, s1) ->
  collect (b :: bs) out seen s = collect bs out seen s1.
Proof.
  intros Hnf H. rewrite collect_boards_unfold, Hnf. unfold bind.
  rewrite (guarded_throw _ _ _ _ _ _ H). reflexivity.
Qed.

(** A board whose fetch returns is merged into [out]. *)
Lemma collect_boards_take b bs out seen s pins s1 :
  agg_full limit (length out) = false ->
  board_pins b (length out) s = (Ret pins, s1) ->
  collect (b :: bs) out seen s =
    collect bs (fst (append_unseen (agg_full limit) pins out seen))
               (snd (append_unseen (agg_full limit) pins out seen)) s1.
Proof.
  intros Hnf H. rewrite collect_boards_unfold, Hnf. unfold bind.
  rewrite (guarded_ret _ _ _ _ _ _ H). reflexivity.
Qed.

Lemma collect_boards_full bs out seen s :
  agg_full limit (length out) = true -> collect bs out seen s = (Ret out, s).
Proof.
  intros Hf. destruct bs; [reflexivity |].
  rewrite collect_boards_unfold, Hf. reflexivity.
Qed.

(** Phase 2 always returns; its result extends [out], board by board,
    and keeps the ids distinct. *)
Lemma collect_boards_spec bs : forall out seen s,
  tracks out seen ->
  exists out' s' added,
    collect bs out seen s = (Ret out', s') /\
    out' = out ++ added /\
    NoDup (List.map pin_id out') /\
    assembled_boards accessToken limit bs (length out) s added.
Proof.
  induction bs as [|b bs IH]; intros out seen s Ht.
  - exists out, s, []. rewrite app_nil_r.
    split; [reflexivity |]. split; [reflexivity |].
    split; [apply Ht | constructor].
  - destruct (agg_full limit (length out)) eqn:Hnf.
    + exists out, s, []. rewrite app_nil_r.
      split; [apply collect_boards_full; assumption |].
      split; [reflexivity |]. split; [apply Ht | constructor].
    + destruct (board_pins b (length out) s) as [[pins|e] s1] eqn:Hb.
      * rewrite (collect_boards_take _ _ _ _ _ _ _ Hnf Hb).
        destruct (append_unseen_spec (agg_full limit) pins out seen Ht)
          as (chunk & Heq & Hsub & Ht' & _).
        destruct (IH _ _ s1 Ht') as (out' & s' & added & Hc & Ho & Hnd & Ha).
        exists out', s', (chunk ++ added).
        split; [assumption |]. split; [| split; [assumption |]].
        -- rewrite Ho, Heq, <- app_assoc. reflexivity.
        -- rewrite Heq, length_app in Ha. econstructor; eassumption.
      * rewrite (collect_boards_skip _ _ _ _ _ _ _ Hnf Hb).
        destruct (IH out seen s1 Ht) as (out' & s' & added & Hc & Ho & Hnd & Ha).
        exists out', s', added.
        split; [assumption |]. split; [assumption |].
        split; [assumption |]. econstructor; eassumption.
Qed.

(** Every pin that a board's fetch returned is in the result of phase
    2, unless the result is full. *)
Lemma collect_boards_keeps b bs out seen s pins s1 out' s' :
  tracks out seen ->
  agg_full limit (length out) = false ->
  board_pins b (length out) s = (Ret pins, s1) ->
  collect (b :: bs) out seen s = (Ret out', s') ->
  forall p, In p pins ->
    In (pin_id p) (List.map pin_id out') \/
    agg_full limit (length out') = true.
Proof.
  intros Ht Hnf Hb Hc p Hp.
  rewrite (collect_boards_take _ _ _ _ _ _ _ Hnf Hb) in Hc.
  destruct (append_unseen_spec (agg_full limit) pins out seen Ht)
    as (chunk & Heq & Hsub & Ht' & Hall).
  destruct (Hall p Hp) as [Hin | Hfull].
  - left.
    destruct (collect_boards_spec bs _ _ s1 Ht')
      as (out2 & s2 & added & Hc2 & Ho & _).
    rewrite Hc in Hc2. injection Hc2 as <- <-.
    rewrite Ho, map_app, in_app_iff. left. assumption.
  - right. rewrite (collect_boards_full _ _ _ _ Hfull) in Hc.
    injection Hc as <- <-. assumption.
Qed.

Lemma slice_to_length {A} (l : list A) :
  (length (slice_to limit l) <= Z.to_nat (number_or_zero limit))%nat.
Proof. unfold slice_to. rewrite length_take. lia. Qed.

(** Once the boards are listed, the body of the handler returns a
    success reply. *)
Lemma me_pins_body_after_boards s boards s1 :
  boards_loop accessToken 20 [] VNull s = (Ret (inr boards), s1) ->
  exists added s2,
    me_pins_body accessToken limit s
      = (Ret (Reply 200 (Items (slice_to limit added))), s2) /\
    NoDup (List.map pin_id added) /\
    assembled_boards accessToken limit boards 0 s1 added.
Proof.
  intros Hb. unfold me_pins_body, bind. rewrite Hb.
  destruct boards as [|b bs].
  - exists [], s1. unfold slice_to. rewrite firstn_nil.
    split; [reflexivity |]. split; constructor.
  - destruct (collect_boards_spec (b :: bs) [] ∅ s1 tracks_empty)
      as (out' & s2 & added & Hc & Ho & Hnd & Ha).
    simpl in Ho. subst out'. exists added, s2. rewrite Hc.
    split; [reflexivity |]. split; assumption.
Qed.

Lemma boards_loop_unfold budget boards bookmark :
  boards_loop accessToken (S budget) boards bookmark =
    if (500 <=? length boards)%nat then ret (inr boards)
    else
      do res <- fetchWithTimeout (boards_request accessToken bookmark);
      if negb (res_ok res) then
        ret (inl (Reply 502 (Failure "Pinterest API error (boards)")))
      else
        do json <- of_option BodyFailed (res_json res);
        if truthy (next_bookmark json)
        then boards_loop accessToken budget
                         (push_boards (items_of json) boards)
                         (next_bookmark json)
        else ret (inr (push_boards (items_of json) boards)).
Proof. reflexivity. Qed.

(** The only early return of phase 1 is a 502. *)
Lemma boards_loop_early budget : forall boards bookmark s early s1,
  boards_loop accessToken budget boards bookmark s = (Ret (inl early), s1) ->
  rp_status early = 502.
Proof.
  induction budget as [|budget IH]; intros boards bookmark s early s1;
    [discriminate |].
  rewrite boards_loop_unfold.
  destruct (500 <=? length boards)%nat; [discriminate |].
  unfold bind, fetchWithTimeout.
  destruct (http_fetch _ (world s)) as [[res|] w]; [| discriminate].
  destruct (res_ok res); cbv beta iota; unfold negb.
  - destruct (res_json res); [| discriminate].
    unfold of_option, ret at 1.
    destruct (truthy (next_bookmark _)); [apply IH | discriminate].
  - intros [= <- <-]. reflexivity.
Qed.

(** The success replies of the body all come from the listed boards. *)
Lemma me_pins_body_items s items s' :
  me_pins_body accessToken limit s = (Ret (Reply 200 (Items items)), s') ->
  exists boards s1 added,
    boards_loop accessToken 20 [] VNull s = (Ret (inr boards), s1) /\
    items = slice_to limit added /\
    NoDup (List.map pin_id added) /\
    assembled_boards accessToken limit boards 0 s1 added.
Proof.
  intros H.
  destruct (boards_loop accessToken 20 [] VNull s) as [[[early|boards]|e] s1]
    eqn:Hb.
  - exfalso. unfold me_pins_body, bind in H. rewrite Hb in H.
    injection H as -> _. apply boards_loop_early in Hb. discriminate.
  - destruct (me_pins_body_after_boards s boards s1 Hb)
      as (added & s2 & Hm & Hnd & Ha).
    rewrite Hm in H. injection H as <- <-.
    exists boards, s1, added. auto.
  - unfold me_pins_body, bind in H. rewrite Hb in H. discriminate.
Qed.
End AggregatorFacts.


(** ** The aggregation and its specification *)







Section AggregateFacts.
Context {P : Platform}.
Variables (accessToken : value) (limit : num).





End AggregateFacts.











(** Two boards that share a pin: its id is in the reply once. *)
Lemma shared_pin_reply :
  fst (@me_pins scripted (VStr "t") (VStr "120") (start shared_pin))
  = Reply 200 (Items [sample_record 1; sample_record 2; sample_record 3]).
Proof. vm_compute. reflexivity. Qed.



(** The reply of the handler when the first of two boards fails. *)
Lemma failing_board_reply :
  exists items s',
    @me_pins scripted (VStr "t") (VStr "120") (start failing_board)
      = (Reply 200 (Items items), s') /\
    List.map pin_id items = ["2"; "3"].
Proof.
  exists [sample_record 2; sample_record 3].
  eexists. split; vm_compute; reflexivity.
Qed.

(** ** Image proxy *)

Lemma append_cons (a : ascii) (x y : string) :
  String a x +:+ y = String a (x +:+ y).
Proof. reflexivity. Qed.

Lemma substring_all (s : string) : String.substring 0 (String.length s) s = s.
Proof. induction s as [|a s IH]; simpl; [reflexivity | rewrite IH; reflexivity]. Qed.

Lemma substring_skip (pre s : string) (m : nat) :
  String.substring (String.length pre) m (pre +:+ s) = String.substring 0 m s.
Proof.
  induction pre as [|a pre IH]; [reflexivity |].
  rewrite append_cons. simpl. exact IH.
Qed.

Lemma length_append (a b : string) :
  String.length (a +:+ b) = (String.length a + String.length b)%nat.
Proof.
  induction a as [|c a IH]; [reflexivity |].
  rewrite append_cons. simpl. rewrite IH. reflexivity.
Qed.

Lemma substring_split (s : string) : forall k,
  (k <= String.length s)%nat ->
  s = String.substring 0 k s +:+ String.substring k (String.length s - k) s.
Proof.
  induction s as [|a s IH]; intros k Hk; simpl in *.
  - destruct k; [reflexivity | lia].
  - destruct k as [|k]; simpl.
    + rewrite substring_all. reflexivity.
    + rewrite append_cons. f_equal. apply IH. lia.
Qed.

(** [ends_with] decides the suffix relation. *)
Lemma ends_with_spec (s suf : string) :
  ends_with s suf = true <-> exists pre, s = pre +:+ suf.
Proof.
  unfold ends_with. split.
  - intros H. apply andb_true_iff in H. destruct H as [Hle Heq].
    apply Nat.leb_le in Hle. apply String.eqb_eq in Heq.
    exists (String.substring 0 (String.length s - String.length suf) s).
    pose proof (substring_split s (String.length s - String.length suf))
      as Hsplit.
    replace (String.length s - (String.length s - String.length suf))%nat
      with (String.length suf) in Hsplit by lia.
    rewrite Heq in Hsplit. apply Hsplit. lia.
  - intros [pre ->]. rewrite length_append.
    apply andb_true_iff. split; [apply Nat.leb_le; lia |].
    replace (String.length pre + String.length suf - String.length suf)%nat
      with (String.length pre) by lia.
    rewrite substring_skip, substring_all. apply String.eqb_refl.
Qed.

Lemma isAllowedImageHost_spec (host : string) :
  isAllowedImageHost host = true <->
  exists suf pre,
    In suf ALLOWED_IMAGE_HOST_SUFFIXES /\ to_lower host = pre +:+ suf.
Proof.
  unfold isAllowedImageHost. rewrite existsb_exists. split.
  - intros (suf & Hin & He). apply ends_with_spec in He.
    destruct He as [pre He]. eauto.
  - intros (suf & pre & Hin & He). exists suf. split; [assumption |].
    apply ends_with_spec. eauto.
Qed.



(** ** The limit of [/api/me/pins] *)

Lemma request_limit_default {P : Platform} : request_limit VUndef = Num 120.
Proof. reflexivity. Qed.

Lemma request_limit_clamped {P : Platform} (q : value) (z : Z) :
  truthy q = true -> to_number q = Num z ->
  request_limit q = Num (Z.min (Z.max z 1) 500) /\
  1 <= Z.min (Z.max z 1) 500 <= 500.
Proof.
  intros Hq Hz. unfold request_limit, or_. rewrite Hq, Hz. simpl.
  split; [reflexivity | lia].
Qed.

(** C8, as stated, fails.  With a limit of 500 and nothing collected
    the remainder is 500, yet the board is asked for 200 pins: of a
    board that holds 250 pins the reply carries 200, where a fetch
    asked for 500 returns all 250. *)
Lemma me_pins_asks_at_most_200 :
  board_limit (Num 500) 0 = Num 200 /\
  board_limit (Num 500) 0 <> num_sub (Num 500) (Num 0) /\
  match fst (@me_pins scripted (VStr "t") (VStr "500") (start one_big_board))
  with
  | Reply 200 (Items items) => length items = 200%nat
  | _ => False
  end /\
  match fst (@fetchPinsPaged scripted (board_pins_url "A") (VStr "t")
                             (Num 500) 10000 (start five_pages))
  with
  | Ret pins => length pins = 250%nat
  | Throw _ => False
  end.
Proof.
  split; [reflexivity |]. split; [discriminate |].
  split; vm_compute; reflexivity.
Qed.

(** C8, amended.  Each board is asked for [min(200, limit - collected)]
    pins.  A success reply of [/api/me/pins] holds at most [limit]
    records; they are the first [limit] of a list made of one chunk per
    listed board, in the order of the listing, the chunk of a board
    being a subsequence of what its fetch returned.  What a fetch
    returns is, likewise, cut from a list made of one chunk per page,
    in page order, each chunk a subsequence of the page's records. *)
Theorem me_pins_order_and_limit {P : Platform} :
  (forall limit collected,
      board_limit (Num limit) collected
        = Num (Z.min 200 (limit - Z.of_nat collected))) /\
  (forall accessToken query_limit s items s',
      me_pins accessToken query_limit s = (Reply 200 (Items items), s') ->
      (length items <= Z.to_nat (number_or_zero (request_limit query_limit)))%nat
      /\
      exists boards s1 added,
        boards_loop accessToken 20 [] VNull s = (Ret (inr boards), s1) /\
        assembled_boards accessToken (request_limit query_limit)
                         boards 0 s1 added /\
        items = slice_to (request_limit query_limit) added) /\
  (forall endpointBase accessToken limit timeoutMs s pins s',
      fetchPinsPaged endpointBase accessToken limit timeoutMs s
        = (Ret pins, s') ->
      exists added,
        assembled_pages endpointBase accessToken limit timeoutMs
                        50 VNull s added /\
        pins = firstn (Z.to_nat (safeLimit limit)) added).
Proof.
  split; [| split].
  - reflexivity.
  - intros accessToken query_limit s items s' H. unfold me_pins in H.
    destruct (negb (truthy accessToken)); [discriminate |].
    destruct (me_pins_body accessToken (request_limit query_limit) s)
      as [[r|e] s1] eqn:Hb; [| discriminate].
    injection H as -> <-.
    destruct (me_pins_body_items _ _ _ _ _ Hb)
      as (boards & s2 & added & Hl & -> & _ & Ha).
    split; [apply slice_to_length |].
    exists boards, s2, added. auto.
  - intros endpointBase accessToken limit timeoutMs s pins s' H.
    destruct (fetchPinsPaged_ret _ _ _ _ _ _ _ H) as (out & Hl & ->).
    destruct (pages_loop_assembled endpointBase accessToken limit timeoutMs
                50 (Paging [] ∅ VNull) s out s' tracks_empty Hl)
      as (added & -> & Ha).
    exists added. auto.
Qed.

Lemma order_on_samples :
  (length [sample_record 1; sample_record 2; sample_record 3]
   <= Z.to_nat (number_or_zero (@request_limit scripted (VStr "120"))))%nat /\
  (exists boards s1 added,
      @boards_loop scripted (VStr "t") 20 [] VNull (start shared_pin)
        = (Ret (inr boards), s1) /\
      @assembled_boards scripted (VStr "t") (@request_limit scripted (VStr "120"))
                        boards 0 s1 added /\
      [sample_record 1; sample_record 2; sample_record 3]
        = slice_to (@request_limit scripted (VStr "120")) added) /\
  (exists added,
      @assembled_pages scripted "pins" (VStr "t") (Num 120) 10000
                       50 VNull (start last_page) added /\
      [sample_record 1; sample_record 2]
        = firstn (Z.to_nat (safeLimit (Num 120))) added).
Proof.
  destruct (@me_pins_order_and_limit scripted) as (_ & H2 & H3).
  split; [| split].
  - apply (H2 (VStr "t") (VStr "120") (start shared_pin)
              [sample_record 1; sample_record 2; sample_record 3]
              (@Env scripted []
                    [boards_request (VStr "t") VNull;
                     first_page_of "A" 120; first_page_of "B" 118])).
    vm_compute. reflexivity.
  - apply (H2 (VStr "t") (VStr "120") (start shared_pin)
              [sample_record 1; sample_record 2; sample_record 3]
              (@Env scripted []
                    [boards_request (VStr "t") VNull;
                     first_page_of "A" 120; first_page_of "B" 118])).
    vm_compute. reflexivity.
  - apply (H3 "pins" (VStr "t") (Num 120) 10000 (start last_page)
              [sample_record 1; sample_record 2]
              (@Env scripted []
                    [page_request "pins" (VStr "t") (Num 120) 10000 VNull])).
    vm_compute. reflexivity.
Defined.

(** C9 at [limit=abc], on a platform where [Number("abc")] is [NaN]:
    the limit of the request is [NaN], outside of the range of 1 to
    500, and every success reply is empty, whatever the boards hold. *)
Theorem me_pins_limit_not_a_number {P : Platform} (accessToken : value) (s : env) :
  string_to_number "abc" = NaN ->
  request_limit (VStr "abc") = NaN /\
  (forall items s',
      me_pins accessToken (VStr "abc") s = (Reply 200 (Items items), s') ->
      items = []).
Proof.
  intros Hnan.
  assert (Hl : request_limit (VStr "abc") = NaN)
    by (unfold request_limit; simpl; rewrite Hnan; reflexivity).
  split; [assumption |].
  intros items s' H. unfold me_pins in H. rewrite Hl in H.
  destruct (negb (truthy accessToken)); [discriminate |].
  destruct (me_pins_body accessToken NaN s) as [[r|e] s1] eqn:Hb;
    [| discriminate].
  injection H as -> <-.
  destruct (me_pins_body_items _ _ _ _ _ Hb) as (_ & _ & added & _ & -> & _).
  reflexivity.
Qed.

Lemma limit_abc_on_sample :
  @request_limit scripted (VStr "abc") = NaN /\
  (forall items s',
      @me_pins scripted (VStr "t") (VStr "abc") (start shared_pin)
        = (Reply 200 (Items items), s') ->
      items = []).
Proof.
  apply (@me_pins_limit_not_a_number scripted (VStr "t") (start shared_pin)).
  reflexivity.
Defined.

(** With [limit=abc] the two boards are fetched, for one pin each, and
    the reply is empty; with [limit=120] it holds their three pins. *)
Lemma limit_abc_reply :
  @me_pins scripted (VStr "t") (VStr "abc") (start shared_pin)
  = (Reply 200 (Items []),
     @Env scripted []
          [boards_request (VStr "t") VNull;
           page_request (board_pins_url "A") (VStr "t") NaN 10000 VNull;
           page_request (board_pins_url "B") (VStr "t") NaN 10000 VNull]).
Proof. vm_compute. reflexivity. Qed.


(** * Further properties *)

(** ** Image-variant selector, on every map *)

Section FirstMax.
Context {A : Type} (score : A -> Z).

Lemma first_max_In l y : first_max score l = Some y -> In y l.
Proof.
  revert y. induction l as [|x l IH]; intros y; simpl; [discriminate |].
  destruct (first_max score l) as [z|].
  - destruct (score x <? score z); intros [= <-]; auto.
  - intros [= <-]. auto.
Qed.

Lemma first_max_split l y :
  first_max score l = Some y ->
  exists pre post,
    l = pre ++ y :: post /\
    Forall (fun x => score x < score y) pre /\
    Forall (fun x => score x <= score y) post.
Proof.
  revert y. induction l as [|x l IH]; intros y; simpl; [discriminate |].
  destruct (first_max score l) as [z|] eqn:Hz.
  - destruct (IH z eq_refl) as (pre & post & -> & Hpre & Hpost).
    destruct (score x <? score z) eqn:Hlt; intros [= <-].
    + apply Z.ltb_lt in Hlt. exists (x :: pre), post.
      split; [reflexivity |]. split; [constructor; assumption | assumption].
    + apply Z.ltb_ge in Hlt. exists [], (pre ++ z :: post).
      split; [reflexivity |]. split; [constructor |].
      apply Forall_app. split.
      * eapply Forall_impl; [exact Hpre |]. simpl. intros; lia.
      * constructor; [assumption |].
        eapply Forall_impl; [exact Hpost |]. simpl. intros; lia.
  - intros [= <-]. exists [], l. split; [reflexivity |].
    split; [constructor |].
    destruct l as [|z l]; [constructor | simpl in Hz].
    destruct (first_max score l) as [u|]; [destruct (score z <? score u) |];
      discriminate.
Qed.
End FirstMax.

Lemma filter_cons_bool {A} (f : A -> bool) (x : A) (l : list A) :
  List.filter f (x :: l) = if f x then x :: List.filter f l else List.filter f l.
Proof. reflexivity. Qed.

Lemma above_true t e :
  above t e = true -> usable e = true /\ t < entry_score e.
Proof.
  unfold above. intros H. apply andb_true_iff in H. destruct H as [Hu Hlt].
  apply Z.ltb_lt in Hlt. auto.
Qed.

Lemma above_In t l y :
  In y (List.filter (above t) l) -> usable y = true /\ t < entry_score y.
Proof.
  intros H. apply filter_In in H. destruct H as [_ H].
  unfold above in H. apply andb_true_iff in H. destruct H as [Hu Hlt].
  apply Z.ltb_lt in Hlt. auto.
Qed.

(** Raising the threshold keeps the first maximum when one is above
    the higher threshold, and otherwise nothing above the lower one
    exceeds the higher one. *)
Lemma first_max_threshold t t' l :
  t <= t' ->
  match first_max entry_score (List.filter (above t') l) with
  | Some y => first_max entry_score (List.filter (above t) l) = Some y
  | None =>
      match first_max entry_score (List.filter (above t) l) with
      | Some y => entry_score y <= t'
      | None => True
      end
  end.
Proof.
  intros Htt. induction l as [|x l IH]; [exact I |].
  rewrite !filter_cons_bool.
  destruct (above t' x) eqn:H1; destruct (above t x) eqn:H2.
  - apply above_true in H1. destruct H1 as [_ H1].
    simpl.
    destruct (first_max entry_score (List.filter (above t') l)) as [y|] eqn:Hy;
      rewrite ?Hy in IH.
    + rewrite IH. destruct (entry_score x <? entry_score y); reflexivity.
    + destruct (first_max entry_score (List.filter (above t) l)) as [z|];
        [| reflexivity].
      assert (Hz : (entry_score x <? entry_score z) = false)
        by (apply Z.ltb_ge; lia).
      rewrite Hz. reflexivity.
  - exfalso. apply above_true in H1. destruct H1 as [Hu H1].
    unfold above in H2. rewrite Hu in H2. simpl in H2.
    apply Z.ltb_ge in H2. lia.
  - apply above_true in H2. destruct H2 as [Hu H2].
    unfold above in H1. rewrite Hu in H1. simpl in H1. apply Z.ltb_ge in H1.
    simpl.
    destruct (first_max entry_score (List.filter (above t') l)) as [y|] eqn:Hy;
      rewrite ?Hy in IH.
    + rewrite IH.
      apply first_max_In, above_In in Hy. destruct Hy as [_ Hy].
      assert (Hz : (entry_score x <? entry_score y) = true)
        by (apply Z.ltb_lt; lia).
      rewrite Hz. reflexivity.
    + destruct (first_max entry_score (List.filter (above t) l)) as [z|];
        [| assumption].
      destruct (entry_score x <? entry_score z); assumption.
  - exact IH.
Qed.

(** The scan, as a function of the entries. *)
Lemma fold_first_max l : forall bu bs,
  fst (fold_left select_step l (bu, bs)) =
    match first_max entry_score (List.filter (above bs) l) with
    | Some e => get (snd e) "url"
    | None => bu
    end.
Proof.
  induction l as [|e l IH]; intros bu bs; [reflexivity |].
  rewrite filter_cons_bool. simpl fold_left.
  destruct (above bs e) eqn:Ha.
  - apply above_true in Ha. destruct Ha as [Hu Hlt].
    rewrite select_step_take by assumption.
    assert (Hb : (bs <? entry_score e) = true) by (apply Z.ltb_lt; lia).
    rewrite Hb, IH. simpl.
    pose proof (first_max_threshold bs (entry_score e) l ltac:(lia)) as Ht.
    destruct (first_max entry_score (List.filter (above (entry_score e)) l))
      as [y|] eqn:Hy; rewrite ?Hy in Ht.
    + rewrite Ht.
      apply first_max_In, above_In in Hy. destruct Hy as [_ Hy].
      assert (Hz : (entry_score e <? entry_score y) = true)
        by (apply Z.ltb_lt; lia).
      rewrite Hz. reflexivity.
    + destruct (first_max entry_score (List.filter (above bs) l)) as [z|];
        [| reflexivity].
      assert (Hz : (entry_score e <? entry_score z) = false)
        by (apply Z.ltb_ge; lia).
      rewrite Hz. reflexivity.
  - destruct (usable e) eqn:Hu.
    + rewrite select_step_take by assumption.
      unfold above in Ha. rewrite Hu in Ha. simpl in Ha. rewrite Ha. apply IH.
    + rewrite select_step_skip by assumption. apply IH.
Qed.

(** X1.  On every variants map, the selector returns [null] when no
    entry is both usable (a truthy value with a truthy [url]) and of a
    score above -1, and otherwise the [url] of the first such entry of
    greatest score: every such entry before it scores strictly less and
    none after it scores more.  An entry whose area is negative is
    never selected. *)
Theorem pickBestImageVariant_exact (images : value) :
  (List.filter eligible (entries images) = [] /\
   pickBestImageVariant images = VNull)
  \/
  (exists pre e post,
      List.filter eligible (entries images) = pre ++ e :: post /\
      pickBestImageVariant images = get (snd e) "url" /\
      Forall (fun x => entry_score x < entry_score e) pre /\
      Forall (fun x => entry_score x <= entry_score e) post).
Proof.
  unfold pickBestImageVariant.
  destruct (negb (truthy images) || negb (typeof_object images)) eqn:Hobj.
  - left. rewrite (entries_not_object _ Hobj). split; reflexivity.
  - rewrite fold_first_max. change (above (-1)) with eligible.
    destruct (first_max entry_score (List.filter eligible (entries images)))
      as [e|] eqn:He.
    + right. destruct (first_max_split _ _ _ He) as (pre & post & Hl & H1 & H2).
      exists pre, e, post. auto.
    + left. split; [| reflexivity].
      destruct (List.filter eligible (entries images)) as [|x l];
        [reflexivity |].
      simpl in He. destruct (first_max entry_score l) as [u|];
        [destruct (entry_score x <? entry_score u) |]; discriminate.
Qed.

(** X2.  What the selector returns is [null] or truthy, and in the
    latter case it is the [url] of an entry of the map: the selector
    never answers an empty or made-up URL. *)
Theorem pickBestImageVariant_null_or_entry_url (images : value) :
  pickBestImageVariant images = VNull \/
  (truthy (pickBestImageVariant images) = true /\
   exists key v,
     In (key, v) (entries images) /\
     pickBestImageVariant images = get v "url").
Proof.
  unfold pickBestImageVariant.
  destruct (negb (truthy images) || negb (typeof_object images));
    [left; reflexivity |].
  rewrite fold_first_max.
  destruct (first_max entry_score (List.filter (above (-1)) (entries images)))
    as [[k v]|] eqn:He; [| left; reflexivity].
  right. apply first_max_In in He.
  pose proof (above_In _ _ _ He) as [Hu _].
  apply filter_In in He. destruct He as [Hin _].
  unfold usable, has_url in Hu. simpl in Hu.
  apply andb_true_iff in Hu. destruct Hu as [_ Hu].
  simpl. split; [exact Hu |]. exists k, v. auto.
Qed.

(** ** Keys that carry a size *)

Lemma pretty_N_go_append (x : N) : forall s t,
  pretty_N_go x s +:+ t = pretty_N_go x (s +:+ t).
Proof.
  induction (N.lt_wf_0 x) as [x _ IH]; intros s t.
  destruct (decide (x = 0)%N) as [-> | Hx].
  - rewrite !pretty_N_go_0. reflexivity.
  - rewrite (pretty_N_go_step x s), (pretty_N_go_step x (s +:+ t)) by lia.
    rewrite IH by (apply N.div_lt; lia). reflexivity.
Qed.

Lemma pretty_N_char_digit (d : N) :
  (d < 10)%N ->
  is_digit (pretty_N_char d) = true /\
  digit_val (pretty_N_char d) = Z.of_N d.
Proof.
  intros Hd.
  assert (d = 0 \/ d = 1 \/ d = 2 \/ d = 3 \/ d = 4 \/ d = 5 \/ d = 6 \/
          d = 7 \/ d = 8 \/ d = 9)%N as H by lia.
  repeat (destruct H as [-> | H]; [split; reflexivity |]).
  subst d. split; reflexivity.
Qed.

(** Reading the digits that [pretty_N_go] wrote gives the number back. *)
Lemma leading_digits_pretty_go (x : N) :
  exists k, 0 <= k /\ forall s acc,
    leading_digits (pretty_N_go x s) acc
      = leading_digits s (acc * 10 ^ k + Z.of_N x).
Proof.
  induction (N.lt_wf_0 x) as [x _ IH].
  destruct (decide (x = 0)%N) as [-> | Hx].
  - exists 0. split; [lia |]. intros s acc. rewrite pretty_N_go_0.
    f_equal. simpl. lia.
  - destruct (IH (x `div` 10)%N) as (k & Hk & Hgo); [apply N.div_lt; lia |].
    exists (k + 1). split; [lia |]. intros s acc.
    rewrite pretty_N_go_step by lia. rewrite Hgo.
    destruct (pretty_N_char_digit (x `mod` 10)%N) as [Hd Hv];
      [apply N.mod_lt; lia |].
    simpl. rewrite Hd, Hv. f_equal.
    rewrite Z.pow_add_r by lia.
    pose proof (N.div_mod x 10 ltac:(lia)) as Hdm.
    assert (Z.of_N x = 10 * Z.of_N (x `div` 10) + Z.of_N (x `mod` 10)) by lia.
    lia.
Qed.

Lemma pretty_N_go_head (x : N) : forall s,
  (0 < x)%N ->
  exists c t, pretty_N_go x s = String c t /\ is_digit c = true.
Proof.
  induction (N.lt_wf_0 x) as [x _ IH]; intros s Hx.
  rewrite pretty_N_go_step by assumption.
  destruct (decide (x `div` 10 = 0)%N) as [Hz | Hz].
  - rewrite Hz, pretty_N_go_0.
    eexists _, _. split; [reflexivity |].
    apply pretty_N_char_digit. apply N.mod_lt. lia.
  - apply IH; [apply N.div_lt; lia | apply N.neq_0_lt_0; assumption].
Qed.

Lemma leading_digits_stop (rest : string) (acc : Z) :
  stops_run rest = true -> leading_digits rest acc = acc.
Proof.
  destruct rest as [|a rest]; simpl; [reflexivity |].
  destruct (is_digit a); [discriminate | reflexivity].
Qed.

Lemma first_digit_run_skip (pre s : string) :
  no_digit pre = true -> first_digit_run (pre +:+ s) = first_digit_run s.
Proof.
  induction pre as [|a pre IH]; [reflexivity |].
  rewrite append_cons. simpl.
  destruct (is_digit a); [discriminate |]. exact IH.
Qed.

Lemma first_digit_run_head (s : string) (c : ascii) (t : string) :
  s = String c t -> is_digit c = true ->
  first_digit_run s = Some (leading_digits s 0).
Proof. intros -> Hc. simpl. rewrite Hc. reflexivity. Qed.

(** X3.  A key made of a text without digits, then a number of at most
    2^53 in decimal, then a text that does not start with a digit (as
    ["1200x"] or ["600x900"]) gives that number as the score read from
    the key.  Up to 2^53 [parseInt] is exact. *)
Theorem first_digit_run_of_decimal (pre : string) (n : N) (rest : string) :
  (n <= 2 ^ 53)%N ->
  no_digit pre = true ->
  stops_run rest = true ->
  first_digit_run (pre +:+ pretty n +:+ rest) = Some (Z.of_N n).
Proof.
  intros _ Hpre Hrest. rewrite first_digit_run_skip by assumption.
  unfold pretty, pretty_N.
  destruct (decide (n = 0)%N) as [-> | Hn].
  - simpl. rewrite leading_digits_stop by assumption. reflexivity.
  - rewrite pretty_N_go_append.
    change ("" +:+ rest) with rest.
    destruct (pretty_N_go_head n rest) as (c & t & Hs & Hc);
      [apply N.neq_0_lt_0; assumption |].
    rewrite (first_digit_run_head _ c t Hs Hc).
    destruct (leading_digits_pretty_go n) as (k & _ & Hk).
    rewrite Hk, leading_digits_stop by assumption. f_equal; lia.
Qed.

Lemma decimal_key_600x900 :
  (600 <= 2 ^ 53)%N /\ no_digit "" = true /\ stops_run "x900" = true /\
  first_digit_run ("" +:+ pretty 600%N +:+ "x900") = Some 600.
Proof.
  assert (H : (600 <= 2 ^ 53)%N) by (vm_compute; discriminate).
  split; [exact H |]. split; [reflexivity |]. split; [reflexivity |].
  exact (first_digit_run_of_decimal "" 600%N "x900" H eq_refl eq_refl).
Defined.

(** ** Pin normaliser: titles, links and the network *)

Lemma or_default (a d : value) : truthy (or_ a d) = true \/ or_ a d = d.
Proof. unfold or_. destruct (truthy a) eqn:E; auto. Qed.

Lemma kept_have_image (pick : value -> value) (items : list value) :
  Forall (fun r => has_image r = true)
         (List.map (record_of pick) (List.filter (resolves pick) items)).
Proof.
  apply Forall_forall. intros r Hin.
  apply list_elem_of_In, in_map_iff in Hin. destruct Hin as (p & <- & Hp).
  apply filter_In in Hp. exact (proj2 Hp).
Qed.

(** X4.  The normaliser never issues a request, however it ends.  When
    it returns, it returns no more records than the page has items,
    and in each record the title is a truthy value or the empty string
    and the link is a truthy value or [null]: neither is ever
    [undefined]. *)
Theorem normalized_titles_and_links {P : Platform} (json : value) (s : env) :
  requests (snd (normalizePinsFromPinterest json s)) = requests s /\
  match fst (normalizePinsFromPinterest json s) with
  | Ret recs =>
      (length recs <= length (items_of json))%nat /\
      Forall (fun r =>
                (truthy (pin_title r) = true \/ pin_title r = VStr "") /\
                (truthy (pin_link r) = true \/ pin_link r = VNull)) recs
  | Throw _ => True
  end.
Proof.
  unfold normalizePinsFromPinterest.
  destruct (normalize_pins_cases pickImageUrlFromPin json s)
    as [[_ (s' & -> & Hq)] | [_ (s' & -> & Hq)]]; simpl;
    (split; [exact Hq |]); [exact I |].
  split.
  - rewrite length_map. apply filter_length_le.
  - apply Forall_forall. intros r Hin.
    apply list_elem_of_In, in_map_iff in Hin. destruct Hin as (p & <- & _).
    simpl. split; [apply or_default | apply or_default].
Qed.

(** ** Paged collection fetcher: results, requests and failures *)

Section PagedMore.
Context {P : Platform}.
Variables (endpointBase : string) (accessToken : value)
          (limit : num) (timeoutMs : Z).

Lemma normalized_have_image json s recs s' :
  normalizePinsFromPinterest json s = (Ret recs, s') ->
  Forall (fun r => has_image r = true) recs.
Proof.
  unfold normalizePinsFromPinterest. intros H.
  destruct (normalize_pins_cases pickImageUrlFromPin json s)
    as [[_ (s1 & H1 & _)] | [_ (s1 & H1 & _)]];
    rewrite H1 in H; [discriminate |].
  injection H as <- <-. apply kept_have_image.
Qed.

Lemma assembled_pages_have_image budget bm s added :
  assembled_pages endpointBase accessToken limit timeoutMs budget bm s added ->
  Forall (fun r => has_image r = true) added.
Proof.
  induction 1 as [| budget bm s res w json normalized s1 chunk rest
                    _ _ Hn Hsub _ IH]; [constructor |].
  apply Forall_app. split; [| exact IH].
  apply normalized_have_image in Hn.
  rewrite Forall_forall in Hn. apply Forall_forall. intros r Hr.
  apply Hn. eapply elem_of_sublist; eassumption.
Qed.

(** The requests of the loop: one per turn, the first one with the
    bookmark of the loop head, every later one with a truthy
    bookmark. *)
Lemma pages_loop_bookmarks budget : forall st s,
  exists bms,
    requests (snd (pages_loop endpointBase accessToken limit timeoutMs
                              budget st s))
      = requests s ++
        List.map (page_request endpointBase accessToken limit timeoutMs) bms /\
    (length bms <= budget)%nat /\
    ((bms = [] /\
      (budget = 0%nat \/ page_full limit (length (pg_out st)) = true)) \/
     exists rest, bms = pg_bookmark st :: rest /\
                  Forall (fun b => truthy b = true) rest).
Proof.
  induction budget as [|budget IH]; intros st s.
  - exists []. simpl. rewrite app_nil_r.
    split; [reflexivity |]. split; [lia |]. left. auto.
  - rewrite pages_loop_unfold.
    destruct (page_full limit (length (pg_out st))) eqn:Hfull.
    + exists []. simpl. rewrite app_nil_r. split; [reflexivity |].
      split; [lia |]. left. auto.
    + unfold bind.
      destruct (fetch_page endpointBase accessToken limit timeoutMs st s)
        as [[[st1 more]|e] s1] eqn:Hp;
        pose proof (fetch_page_log _ _ _ _ _ _ _ _ Hp) as Hlog; simpl.
      * destruct more.
        -- destruct (fetch_page_ret _ _ _ _ _ _ _ _ _ Hp)
             as (res & w & json & n & _ & _ & _ & _ & _ & _ & Hb & Hm).
           destruct (IH st1 s1) as (bms & Hq & Hlen & Hshape).
           exists (pg_bookmark st :: bms). rewrite Hq, Hlog, <- app_assoc.
           split; [reflexivity |]. split; [simpl; lia |].
           right. exists bms. split; [reflexivity |].
           destruct Hshape as [[-> _] | (rest & -> & Hrest)]; [constructor |].
           constructor; [| exact Hrest]. rewrite Hb. symmetry. exact Hm.
        -- exists [pg_bookmark st]. simpl. split; [exact Hlog |].
           split; [lia |]. right. exists []. split; [reflexivity | constructor].
      * exists [pg_bookmark st]. simpl. split; [exact Hlog |].
        split; [lia |]. right. exists []. split; [reflexivity | constructor].
Qed.

Lemma fetch_page_throws st s e s' :
  fetch_page endpointBase accessToken limit timeoutMs st s = (Throw e, s') ->
  e = FetchFailed \/ e = BodyFailed \/ e = TypeError \/
  exists st txt, e = ApiError st txt /\ ~ (200 <= st <= 299).
Proof.
  unfold fetch_page, bind, fetchWithTimeout.
  destruct (http_fetch _ (world s)) as [[res|] w]; simpl;
    [| intros [= <- _]; auto].
  destruct (res_ok res) eqn:Hok; simpl.
  - destruct (res_json res) as [json|]; simpl; [| intros [= <- _]; auto].
    destruct (normalizePinsFromPinterest json _) as [[n|e'] s2] eqn:Hn.
    + destruct (append_unseen _ n _ _). discriminate.
    + intros [= <- _]. right. right. left.
      unfold normalizePinsFromPinterest in Hn.
      destruct (normalize_pins_cases pickImageUrlFromPin json
                  (Env w (requests s ++
                          [page_request endpointBase accessToken limit
                                        timeoutMs (pg_bookmark st)])))
        as [[_ (s3 & H3 & _)] | [_ (s3 & H3 & _)]];
        rewrite H3 in Hn; congruence.
  - intros [= <- _]. right. right. right.
    exists (res_status res), (default "" (res_text res)).
    split; [reflexivity |].
    unfold res_ok in Hok. apply andb_false_iff in Hok.
    destruct Hok as [Hok | Hok]; apply Z.leb_gt in Hok; lia.
Qed.

Lemma pages_loop_throws budget : forall st s e s',
  pages_loop endpointBase accessToken limit timeoutMs budget st s
    = (Throw e, s') ->
  e = FetchFailed \/ e = BodyFailed \/ e = TypeError \/
  exists st txt, e = ApiError st txt /\ ~ (200 <= st <= 299).
Proof.
  induction budget as [|budget IH]; intros st s e s'; [discriminate |].
  rewrite pages_loop_unfold.
  destruct (page_full limit (length (pg_out st))); [discriminate |].
  unfold bind.
  destruct (fetch_page endpointBase accessToken limit timeoutMs st s)
    as [[[st1 more]|e1] s1] eqn:Hp; simpl.
  - destruct more; [apply IH | discriminate].
  - intros [= <- _]. eapply fetch_page_throws. exact Hp.
Qed.
End PagedMore.

Lemma safeLimit_range (limit : num) :
  1 <= safeLimit limit <= 500 /\
  (forall z, limit = Num z -> 1 <= z <= 500 -> safeLimit limit = z).
Proof.
  split; [unfold safeLimit; lia |].
  intros z -> Hz. unfold safeLimit. simpl. lia.
Qed.

Lemma fetchPinsPaged_have_image {P : Platform}
    (endpointBase : string) (accessToken : value) (limit : num) (timeoutMs : Z)
    (s : env) (pins : list pin) (s' : env) :
  fetchPinsPaged endpointBase accessToken limit timeoutMs s = (Ret pins, s') ->
  Forall (fun r => truthy (pin_image r) = true) pins.
Proof.
  intros H. destruct (fetchPinsPaged_ret _ _ _ _ _ _ _ H) as (out & Hl & ->).
  destruct (pages_loop_assembled endpointBase accessToken limit timeoutMs
              50 (Paging [] ∅ VNull) s out s' tracks_empty Hl)
    as (added & -> & Ha).
  apply assembled_pages_have_image in Ha. simpl.
  apply Forall_take. exact Ha.
Qed.

(** X5.  What [fetchPinsPaged] returns holds at most [safeLimit]
    records, the limit clamped into 1 to 500, and every record has a
    truthy image. *)
Theorem fetchPinsPaged_result_bounds {P : Platform}
    (endpointBase : string) (accessToken : value) (limit : num) (timeoutMs : Z)
    (s : env) (pins : list pin) (s' : env) :
  fetchPinsPaged endpointBase accessToken limit timeoutMs s = (Ret pins, s') ->
  (length pins <= Z.to_nat (safeLimit limit))%nat /\
  1 <= safeLimit limit <= 500 /\
  (forall z, limit = Num z -> 1 <= z <= 500 -> safeLimit limit = z) /\
  Forall (fun r => truthy (pin_image r) = true) pins.
Proof.
  intros H. destruct (safeLimit_range limit) as (Hrange & Heq).
  split; [| split; [exact Hrange | split; [exact Heq |]]].
  - destruct (fetchPinsPaged_ret _ _ _ _ _ _ _ H) as (out & _ & ->).
    rewrite length_take. lia.
  - eapply fetchPinsPaged_have_image. exact H.
Qed.

(** X6.  One call of [fetchPinsPaged] issues at least one and at most
    50 requests, all to [endpointBase] with the bearer token and a
    page size of [min(safeLimit, 50)], between 1 and 50.  The first
    request carries no bookmark parameter; every later one carries a
    truthy bookmark. *)
Theorem fetchPinsPaged_requests_shape {P : Platform}
    (endpointBase : string) (accessToken : value) (limit : num) (timeoutMs : Z)
    (s : env) :
  exists bookmarks,
    requests (snd (fetchPinsPaged endpointBase accessToken limit timeoutMs s))
      = requests s ++
        List.map (page_request endpointBase accessToken limit timeoutMs)
                 (VNull :: bookmarks) /\
    (length bookmarks < 50)%nat /\
    Forall (fun b => truthy b = true /\
                     bookmark_param b = [("bookmark", to_string b)]) bookmarks /\
    bookmark_param VNull = [] /\
    1 <= pageSize limit <= 50.
Proof.
  destruct (pages_loop_bookmarks endpointBase accessToken limit timeoutMs
              50 (Paging [] ∅ VNull) s) as (bms & Hq & Hlen & Hshape).
  assert (Hsnd :
    requests (snd (fetchPinsPaged endpointBase accessToken limit timeoutMs s))
    = requests (snd (pages_loop endpointBase accessToken limit timeoutMs
                                50 (Paging [] ∅ VNull) s))).
  { unfold fetchPinsPaged, bind.
    destruct (pages_loop endpointBase accessToken limit timeoutMs 50 _ s)
      as [[out|e] s1]; reflexivity. }
  rewrite Hsnd, Hq.
  destruct Hshape as [[_ [Hc | Hc]] | (rest & -> & Hrest)].
  - discriminate.
  - exfalso. apply Z.leb_le in Hc. unfold safeLimit in Hc. simpl in Hc. lia.
  - exists rest. split; [reflexivity |]. simpl in Hlen.
    split; [lia |]. split.
    + eapply Forall_impl; [exact Hrest |]. simpl. intros b Hb.
      split; [exact Hb |]. unfold bookmark_param. rewrite Hb. reflexivity.
    + split; [reflexivity |]. unfold pageSize, safeLimit. lia.
Qed.

(** X7.  When [fetchPinsPaged] throws, the exception is the failure of
    a network call, an unreadable body, the [TypeError] of the
    normaliser, or the error of a page answered with a status outside
    of 200 to 299. *)
Theorem fetchPinsPaged_failures {P : Platform}
    (endpointBase : string) (accessToken : value) (limit : num) (timeoutMs : Z)
    (s : env) (e : exn) (s' : env) :
  fetchPinsPaged endpointBase accessToken limit timeoutMs s = (Throw e, s') ->
  e = FetchFailed \/ e = BodyFailed \/ e = TypeError \/
  exists status text, e = ApiError status text /\ ~ (200 <= status <= 299).
Proof.
  unfold fetchPinsPaged, bind.
  destruct (pages_loop endpointBase accessToken limit timeoutMs 50 _ s)
    as [[out|e1] s1] eqn:Hl; [discriminate |].
  intros [= <- _]. eapply pages_loop_throws. exact Hl.
Qed.

(** ** Multi-board aggregator: replies and requests *)

Section AggregatorMore.
Context {P : Platform}.
Variables (accessToken : value) (limit : num).

(** The only early return of phase 1, in full. *)
Lemma boards_loop_early_reply budget : forall boards bookmark s early s1,
  boards_loop accessToken budget boards bookmark s = (Ret (inl early), s1) ->
  early = Reply 502 (Failure "Pinterest API error (boards)").
Proof.
  induction budget as [|budget IH]; intros boards bookmark s early s1;
    [discriminate |].
  rewrite boards_loop_unfold.
  destruct (500 <=? length boards)%nat; [discriminate |].
  unfold bind, fetchWithTimeout.
  destruct (http_fetch _ (world s)) as [[res|] w]; [| discriminate].
  destruct (res_ok res); cbv beta iota; unfold negb.
  - destruct (res_json res); [| discriminate].
    unfold of_option, ret at 1.
    destruct (truthy (next_bookmark _)); [apply IH | discriminate].
  - intros [= <- <-]. reflexivity.
Qed.

Lemma boards_loop_log budget : forall boards bookmark s,
  exists new,
    requests (snd (boards_loop accessToken budget boards bookmark s))
      = requests s ++ new /\
    (length new <= budget)%nat.
Proof.
  induction budget as [|budget IH]; intros boards bookmark s.
  - exists []. simpl. rewrite app_nil_r. auto.
  - rewrite boards_loop_unfold.
    destruct (500 <=? length boards)%nat.
    { exists []. simpl. rewrite app_nil_r. split; [reflexivity | lia]. }
    unfold bind, fetchWithTimeout.
    destruct (http_fetch _ (world s)) as [[res|] w]; cbv beta iota.
    + destruct (res_ok res); unfold negb.
      * destruct (res_json res) as [json|]; unfold of_option.
        -- unfold ret at 1.
           destruct (truthy (next_bookmark json)).
           ++ destruct (IH (push_boards (items_of json) boards)
                           (next_bookmark json)
                           (Env w (requests s ++
                                   [boards_request accessToken bookmark])))
                as (new & Hq & Hlen).
              exists (boards_request accessToken bookmark :: new).
              rewrite Hq. simpl. rewrite <- app_assoc.
              split; [reflexivity | lia].
           ++ exists [boards_request accessToken bookmark]. simpl.
              split; [reflexivity | lia].
        -- exists [boards_request accessToken bookmark]. simpl.
           split; [reflexivity | lia].
      * exists [boards_request accessToken bookmark]. simpl.
        split; [reflexivity | lia].
    + exists [boards_request accessToken bookmark]. simpl.
      split; [reflexivity | lia].
Qed.

Lemma fetch_board_pins_log b n s :
  exists new,
    requests (snd (fetch_board_pins accessToken limit b n s))
      = requests s ++ new /\
    (length new <= 50)%nat.
Proof.
  unfold fetch_board_pins, bind.
  destruct (encodeURIComponent (board_id b)) as [enc|]; simpl.
  - destruct (fetchPinsPaged (board_pins_url enc) accessToken
                             (board_limit limit n) 10000 s) as [r s'] eqn:H.
    simpl. eapply fetchPinsPaged_log. exact H.
  - exists []. rewrite app_nil_r. split; [reflexivity | simpl; lia].
Qed.

Lemma try_board_log b out seen s :
  exists new,
    requests (snd (try_board accessToken limit b out seen s))
      = requests s ++ new /\
    (length new <= 50)%nat.
Proof.
  destruct (fetch_board_pins_log b (length out) s) as (new & Hq & Hlen).
  exists new. split; [| exact Hlen]. rewrite <- Hq.
  unfold try_board, try_catch, fetch_board, bind.
  destruct (fetch_board_pins accessToken limit b (length out) s)
    as [[pins|e] s1]; reflexivity.
Qed.

Lemma collect_boards_log bs : forall out seen s,
  exists new,
    requests (snd (collect_boards accessToken limit bs out seen s))
      = requests s ++ new /\
    (length new <= 50 * length bs)%nat.
Proof.
  induction bs as [|b bs IH]; intros out seen s.
  - exists []. simpl. rewrite app_nil_r. auto.
  - rewrite collect_boards_unfold.
    destruct (agg_full limit (length out)).
    { exists []. simpl. rewrite app_nil_r. split; [reflexivity | lia]. }
    destruct (try_board_log b out seen s) as (new1 & Hq1 & Hlen1).
    unfold bind.
    destruct (try_board accessToken limit b out seen s) as [[r|e] s1] eqn:Ht;
      simpl in Hq1.
    + destruct (IH (fst r) (snd r) s1) as (new2 & Hq2 & Hlen2).
      exists (new1 ++ new2). rewrite Hq2, Hq1, <- app_assoc.
      split; [reflexivity |]. rewrite length_app. simpl length. lia.
    + exists new1. simpl. split; [exact Hq1 |]. simpl length. lia.
Qed.

(** What the body of the handler can return. *)
Lemma me_pins_body_returns s r s' :
  me_pins_body accessToken limit s = (Ret r, s') ->
  (exists items, r = Reply 200 (Items items)) \/
  (r = Reply 502 (Failure "Pinterest API error (boards)") /\
   exists early, boards_loop accessToken 20 [] VNull s = (Ret (inl early), s')).
Proof.
  unfold me_pins_body, bind.
  destruct (boards_loop accessToken 20 [] VNull s) as [[[early|boards]|e] s1]
    eqn:Hb; [| | discriminate].
  - intros [= <- <-]. right.
    rewrite (boards_loop_early_reply _ _ _ _ _ _ Hb). eauto.
  - destruct boards as [|b bs]; [intros [= <- <-]; eauto |].
    destruct (collect_boards accessToken limit (b :: bs) [] ∅ s1)
      as [[out|e] s2]; [| discriminate].
    intros [= <- <-]. eauto.
Qed.

(** The merging loop takes every pin of a list with distinct, unseen
    ids as long as [out] does not become full. *)
Lemma append_unseen_all full ps : forall out seen,
  tracks out seen ->
  NoDup (List.map pin_id ps) ->
  (forall p, In p ps -> pin_id p ∉ seen) ->
  (forall n, (length out <= n < length out + length ps)%nat -> full n = false) ->
  fst (append_unseen full ps out seen) = out ++ ps.
Proof.
  induction ps as [|p ps IH]; intros out seen Ht Hnd Hnew Hroom; simpl.
  - rewrite app_nil_r. reflexivity.
  - rewrite (Hroom (length out)) by (simpl; lia).
    destruct (decide (pin_id p ∈ seen)) as [Hin | Hnin].
    + exfalso. apply (Hnew p); [left; reflexivity | exact Hin].
    + simpl in Hnd. apply NoDup_cons in Hnd. destruct Hnd as [Hp Hnd].
      rewrite IH.
      * rewrite <- app_assoc. reflexivity.
      * apply tracks_push; assumption.
      * exact Hnd.
      * intros q Hq Hc. apply elem_of_union in Hc. destruct Hc as [Hc | Hc].
        -- apply elem_of_singleton in Hc. apply Hp.
           rewrite <- Hc. apply list_elem_of_In, in_map. exact Hq.
        -- apply (Hnew q); [right; exact Hq | exact Hc].
      * intros n Hn. apply Hroom. rewrite length_app in Hn. simpl in *. lia.
Qed.
End AggregatorMore.


(** X9.  [/api/me/pins] lists the boards with at most 20 requests and
    then fetches pins with at most 50 requests per listed board. *)
Theorem me_pins_request_bound {P : Platform}
    (accessToken query_limit : value) (s : env) :
  exists new,
    requests (snd (me_pins accessToken query_limit s)) = requests s ++ new /\
    match boards_loop accessToken 20 [] VNull s with
    | (Ret (inr boards), _) => (length new <= 20 + 50 * length boards)%nat
    | _ => (length new <= 20)%nat
    end.
Proof.
  unfold me_pins. destruct (negb (truthy accessToken)).
  { exists []. rewrite app_nil_r. split; [reflexivity |].
    destruct (boards_loop accessToken 20 [] VNull s) as [[[?|?]|?] ?];
      simpl length; lia. }
  destruct (boards_loop_log accessToken 20 [] VNull s) as (new1 & Hq1 & Hlen1).
  unfold me_pins_body, bind.
  destruct (boards_loop accessToken 20 [] VNull s) as [[[early|boards]|e] s1];
    simpl in Hq1.
  - exists new1. simpl. auto.
  - destruct boards as [|b bs].
    + exists new1. simpl. split; [exact Hq1 | lia].
    + destruct (collect_boards_log accessToken (request_limit query_limit)
                  (b :: bs) [] ∅ s1) as (new2 & Hq2 & Hlen2).
      destruct (collect_boards accessToken (request_limit query_limit)
                  (b :: bs) [] ∅ s1) as [[out|e] s2]; simpl in Hq2;
        exists (new1 ++ new2); cbn [snd ret]; rewrite Hq2, Hq1, <- app_assoc;
        (split; [reflexivity |]); rewrite length_app; lia.
  - exists new1. simpl. auto.
Qed.

(** X10.  For a user with a single board and a limit of at most 200,
    [/api/me/pins] answers what [/api/boards/:boardId/pins] answers
    for that board after the listing: the same items, in the same
    order, and the same final environment. *)
Theorem me_pins_single_board {P : Platform}
    (accessToken query_limit : value) (s : env)
    (b : board) (s1 : env) (l : Z) (pins : list pin) (s2 : env) :
  truthy accessToken = true ->
  boards_loop accessToken 20 [] VNull s = (Ret (inr [b]), s1) ->
  request_limit query_limit = Num l ->
  l <= 200 ->
  board_pins accessToken query_limit (board_id b) s1
    = (Reply 200 (Items pins), s2) ->
  me_pins accessToken query_limit s = (Reply 200 (Items pins), s2).
Proof.
  intros Htok Hlist Hlim Hl Hboard.
  assert (Hrange : 1 <= l <= 500).
  { unfold request_limit in Hlim.
    destruct (to_number (or_ query_limit (VNum (Num 120)))) as [|z];
      simpl in Hlim; [discriminate |].
    injection Hlim as <-. lia. }
  unfold board_pins in Hboard. rewrite Htok, Hlim in Hboard. simpl in Hboard.
  assert (Hfetch : fetch_board_pins accessToken (Num l) b 0 s1 = (Ret pins, s2)).
  { unfold fetch_board_pins.
    assert (Hbl : board_limit (Num l) 0 = Num l)
      by (unfold board_limit; simpl; f_equal; lia).
    rewrite Hbl.
    destruct ((do enc <- of_option URIError (encodeURIComponent (board_id b));
               fetchPinsPaged (board_pins_url enc) accessToken (Num l) 10000)
                s1) as [[items|e] s'] eqn:Hf; [| discriminate].
    injection Hboard as <- <-. reflexivity. }
  assert (Hpins : NoDup (List.map pin_id pins) /\ (Z.of_nat (length pins) <= l)).
  { unfold fetch_board_pins, bind in Hfetch.
    destruct (encodeURIComponent (board_id b)) as [enc|]; simpl in Hfetch;
      [| discriminate].
    assert (Hbl : board_limit (Num l) 0 = Num l)
      by (unfold board_limit; simpl; f_equal; lia).
    rewrite Hbl in Hfetch. split.
    - eapply fetchPinsPaged_NoDup. exact Hfetch.
    - destruct (fetchPinsPaged_ret _ _ _ _ _ _ _ Hfetch) as (out & _ & ->).
      rewrite length_take.
      assert (safeLimit (Num l) = l) by (unfold safeLimit; simpl; lia).
      lia. }
  destruct Hpins as [Hnd Hlen].
  unfold me_pins. rewrite Htok, Hlim. simpl.
  unfold me_pins_body, bind. rewrite Hlist.
  rewrite (collect_boards_take accessToken (Num l) b [] [] ∅ s1 pins s2);
    [| unfold agg_full; simpl; apply Z.leb_gt; lia | exact Hfetch].
  assert (Hall : fst (append_unseen (agg_full (Num l)) pins [] ∅) = pins).
  { rewrite append_unseen_all.
    - reflexivity.
    - apply tracks_empty.
    - exact Hnd.
    - intros p _. apply not_elem_of_empty.
    - intros n Hn. unfold agg_full. simpl in *. apply Z.leb_gt. lia. }
  rewrite Hall. simpl. unfold ret, slice_to. simpl.
  rewrite firstn_all2 by lia. reflexivity.
Qed.

(** ** [GET /api/boards/:boardId/pins] *)


(** ** [GET /api/me/boards] *)

Lemma map_M_board_info {P : Platform} (items : list value) (s : env) :
  map_M board_info_of items s =
    if forallb listable items
    then (Ret (List.map board_info_pure items), s)
    else (Throw TypeError, s).
Proof.
  induction items as [|b items IH]; [reflexivity |].
  rewrite map_M_cons. unfold bind at 1. unfold board_info_of at 1.
  unfold bind at 1. simpl forallb. unfold listable at 1.
  destruct (nullish b) eqn:Hn.
  - destruct b; try discriminate; reflexivity.
  - rewrite (get_strict_ok _ _ _ Hn). cbv beta iota. unfold bind at 1.
    simpl negb. simpl andb.
    destruct (stringable (get b "id")); [| reflexivity].
    unfold ret at 1. cbv beta iota. unfold ret at 1. cbv beta iota.
    unfold bind. rewrite IH.
    destruct (forallb listable items); reflexivity.
Qed.

Lemma lists_pure (items : list value) :
  Forall2 lists items (List.map board_info_pure items).
Proof.
  induction items as [|b items IH]; simpl; constructor; [| exact IH].
  repeat split.
Qed.

(** X12.  Without a token the boards handler answers 500 and issues no
    request; with a token it issues exactly one.  On a success of the
    upstream with a readable body it answers one entry per item of the
    page, in order, with the name and the description of the item or
    the empty string, and with the text of its [id]; but an item that
    is [null] or whose [id] has no text, an unreadable body or a failed
    call turns the whole answer into a 502. *)
Theorem me_boards_replies {P : Platform} (accessToken : value) (s : env) :
  if truthy accessToken then
    requests (snd (me_boards accessToken s))
      = requests s ++ [boards_request accessToken VNull] /\
    match fst (http_fetch (boards_request accessToken VNull) (world s)) with
    | Some res =>
        if res_ok res then
          match res_json res with
          | Some json =>
              if forallb listable (items_of json)
              then exists infos,
                     fst (me_boards accessToken s) = BoardsOk infos /\
                     Forall2 lists (items_of json) infos
              else fst (me_boards accessToken s)
                   = BoardsError 502 "Pinterest boards request failed"
          | None => fst (me_boards accessToken s)
                    = BoardsError 502 "Pinterest boards request failed"
          end
        else
          match res_text res with
          | Some _ => fst (me_boards accessToken s)
                      = BoardsError 502 "Pinterest API error (boards)"
          | None => fst (me_boards accessToken s)
                    = BoardsError 502 "Pinterest boards request failed"
          end
    | None => fst (me_boards accessToken s)
              = BoardsError 502 "Pinterest boards request failed"
    end
  else me_boards accessToken s = (BoardsError 500 no_token_message, s).
Proof.
  unfold me_boards. destruct (truthy accessToken); [| reflexivity]. simpl.
  unfold me_boards_body, bind, fetchWithTimeout.
  destruct (http_fetch (boards_request accessToken VNull) (world s))
    as [[res|] w]; simpl; [| auto].
  destruct (res_ok res); simpl.
  - destruct (res_json res) as [json|]; simpl; [| auto].
    rewrite map_M_board_info.
    destruct (forallb listable (items_of json)); simpl; [| auto].
    split; [reflexivity |].
    exists (List.map board_info_pure (items_of json)).
    split; [reflexivity | apply lists_pure].
  - destruct (res_text res); simpl; auto.
Qed.

(** ** [GET /api/search] *)

Section SearchFacts.
Context {P : Platform}.
Variable JSON_parse : string -> option value.


(** X14.  A success of the search handler has the source
    ["pinterest-v5"] and carries the first [limit] of the records
    normalised from the parsed text of the upstream's answer, at most
    120, each with a truthy image; and whenever the upstream answers
    with a success, its text parses and the normaliser returns, the
    handler answers with that success.  A failure has the status 400,
    500 or 502, and echoes the status of the upstream only for a 502
    caused by a status outside of 200 to 299. *)
Theorem search_replies
    (accessToken query_q query_limit : value) (s : env) :
  let q := string_trim (to_string (or_ query_q (VStr ""))) in
  let limit := search_limit query_limit in
  let req := search_request accessToken q (num_min limit (Num 50)) in
  match fst (search JSON_parse accessToken query_q query_limit s) with
  | SearchOk source items =>
      source = "pinterest-v5" /\
      (length items <= 120)%nat /\
      Forall (fun r => truthy (pin_image r) = true) items /\
      exists res w text json normalized,
        http_fetch req (world s) = (Some res, w) /\
        res_ok res = true /\
        res_text res = Some text /\
        JSON_parse text = Some json /\
        normalizePinsFromPinterest json (Env w (requests s ++ [req]))
          = (Ret normalized,
             snd (search JSON_parse accessToken query_q query_limit s)) /\
        items = slice_to limit normalized
  | SearchError status error upstream =>
      (status = 400 \/ status = 500 \/ status = 502) /\
      match upstream with
      | Some st => status = 502 /\ error = "Pinterest API error" /\
                   ~ (200 <= st <= 299)
      | None => True
      end
  end /\
  (forall res w text json normalized s2,
      q <> "" ->
      truthy accessToken = true ->
      http_fetch req (world s) = (Some res, w) ->
      res_ok res = true ->
      res_text res = Some text ->
      JSON_parse text = Some json ->
      normalizePinsFromPinterest json (Env w (requests s ++ [req]))
        = (Ret normalized, s2) ->
      search JSON_parse accessToken query_q query_limit s
        = (SearchOk "pinterest-v5" (slice_to limit normalized), s2)).
Proof.
  intros q limit req. split.
  - unfold search. fold q. fold limit.
    destruct (String.eqb q ""); [simpl; auto |].
    destruct (negb (truthy accessToken)); [simpl; auto |].
    unfold search_body, bind, fetchWithTimeout. fold req.
    destruct (http_fetch req (world s)) as [[res|] w] eqn:Hf; simpl; [| auto].
    destruct (res_text res) as [text|] eqn:Ht; simpl; [| auto].
    destruct (res_ok res) eqn:Hok; simpl.
    + destruct (JSON_parse text) as [json|] eqn:Hj; simpl; [| auto].
      destruct (normalizePinsFromPinterest json _) as [[n|e] s2] eqn:Hn;
        simpl; [| auto].
      split; [reflexivity |].
      assert (Hlen : (Z.to_nat (number_or_zero limit) <= 120)%nat).
      { unfold limit, search_limit.
        destruct (to_number (or_ query_limit (VNum (Num 60)))) as [|z];
          simpl; lia. }
      split; [unfold slice_to; rewrite length_take; lia |].
      split.
      * unfold slice_to. apply Forall_take.
        exact (normalized_have_image _ _ _ _ Hn).
      * exists res, w, text, json, n.
        repeat split; try assumption; reflexivity.
    + split; [auto |]. split; [reflexivity |]. split; [reflexivity |].
      unfold res_ok in Hok. apply andb_false_iff in Hok.
      destruct Hok as [Hok | Hok]; apply Z.leb_gt in Hok; lia.
  - intros res w text json normalized s2 Hq Htok Hf Hok Ht Hj Hn.
    unfold search. fold q. fold limit.
    apply String.eqb_neq in Hq. rewrite Hq, Htok. simpl.
    unfold search_body, bind, fetchWithTimeout. fold req.
    rewrite Hf. simpl. rewrite Ht. simpl. rewrite Hok. simpl.
    rewrite Hj. simpl. rewrite Hn. reflexivity.
Qed.
End SearchFacts.

(** ** The search handler of [server/index.js] *)

Section LegacySearchFacts.
Context {P : Platform}.
Variable JSON_parse : string -> option value.
Variable useMock : bool.
Variable sample : option value.
Variable accessToken : value.

Abbreviation legacy_search :=
  (LegacySearch.search JSON_parse useMock sample accessToken).

(** X15.  In [server/index.js] the limit of a search always lies
    between 1 and 120, whatever the query holds, and it is 60 when the
    parameter is falsy (absent or empty) or converts to [NaN]. *)
Theorem legacy_limit_in_range (query_limit : value) :
  1 <= LegacySearch.limit_of query_limit <= 120 /\
  (truthy query_limit = false -> LegacySearch.limit_of query_limit = 60) /\
  (to_number query_limit = NaN -> LegacySearch.limit_of query_limit = 60).
Proof.
  unfold LegacySearch.limit_of, LegacySearch.finite_limit, or_.
  split; [| split].
  - destruct (to_number _); lia.
  - intros ->. reflexivity.
  - intros Hn. destruct (truthy query_limit); [rewrite Hn |]; reflexivity.
Qed.

(** A reply sent from inside the live [try] block is a failure. *)
Lemma live_body_inl q limit s r s' :
  LegacySearch.live_body JSON_parse accessToken q limit s = (Ret (inl r), s') ->
  exists status error upstream, r = SearchError status error upstream.
Proof.
  unfold LegacySearch.live_body, bind, fetchWithTimeout.
  destruct (http_fetch _ (world s)) as [[res|] w]; simpl; [| discriminate].
  destruct (res_text res) as [text|]; simpl; [| discriminate].
  destruct (res_ok res); simpl.
  - destruct (JSON_parse text) as [json|]; simpl.
    + destruct (Legacy.normalizePinsFromPinterest json _) as [[n|e] s2];
        discriminate.
    + intros [= <- _]. eauto.
  - intros [= <- _]. eauto.
Qed.

(** X16.  The cache changes only on a success: a failure and a cache
    hit leave it as it is, and a fresh success adds its items under the
    key of the request. *)
Theorem legacy_cache_changes (query_q query_limit : value)
    (cache : gmap string (list value)) (s : env) :
  match fst (legacy_search query_q query_limit cache s) with
  | (SearchError _ _ _, cache') => cache' = cache
  | (SearchOk source items, cache') =>
      (source = "cache" /\ cache' = cache /\ useMock = false) \/
      (source <> "cache" /\
       cache' = <[LegacySearch.cacheKey
                    (string_trim (to_string (or_ query_q (VStr ""))))
                    (LegacySearch.limit_of query_limit) useMock := items]> cache)
  end.
Proof.
  unfold LegacySearch.search.
  destruct (String.eqb _ ""); [reflexivity |].
  destruct useMock.
  - destruct (LegacySearch.mock_items sample _ s) as [[items|e] s'];
      simpl; [| reflexivity].
    right. split; [discriminate | reflexivity].
  - destruct (cache !! _) as [items|]; simpl; [left; auto |].
    destruct (negb (truthy accessToken)); [reflexivity |].
    destruct (LegacySearch.live_body _ _ _ _ s) as [[[r|items]|e] s'] eqn:Hl;
      simpl; [| right; split; [discriminate | reflexivity] | reflexivity].
    destruct (live_body_inl _ _ _ _ _ Hl) as (st & msg & up & ->). reflexivity.
Qed.

(** X17.  In live mode, repeating a search that succeeded is answered
    from the cache: the same items, the source ["cache"], no request
    and no change of the cache, in whatever environment. *)
Theorem legacy_search_repeat (query_q query_limit : value)
    (cache : gmap string (list value)) (s : env)
    (source : string) (items : list value)
    (cache' : gmap string (list value)) (s' s2 : env) :
  useMock = false ->
  legacy_search query_q query_limit cache s
    = (SearchOk source items, cache', s') ->
  legacy_search query_q query_limit cache' s2
    = (SearchOk "cache" items, cache', s2).
Proof.
  intros Hlive. unfold LegacySearch.search. rewrite Hlive.
  destruct (String.eqb _ ""); [discriminate |].
  destruct (cache !! _) as [items0|] eqn:Hc.
  - intros [= _ <- <- _]. rewrite Hc. reflexivity.
  - destruct (negb (truthy accessToken)); [discriminate |].
    destruct (LegacySearch.live_body _ _ _ _ s) as [[[r|items1]|e] s1] eqn:Hl;
      [| | discriminate].
    + destruct (live_body_inl _ _ _ _ _ Hl) as (st & msg & up & ->).
      discriminate.
    + intros [= _ <- <- _]. rewrite lookup_insert_eq. reflexivity.
Qed.

(** X18.  In live mode, a search that misses the cache and is answered
    with a status outside of 200 to 299 is answered with that very
    status (502 when it is 0), echoes it in the body, and caches
    nothing. *)
Theorem legacy_upstream_status (query_q query_limit : value)
    (cache : gmap string (list value)) (s : env)
    (res : response) (w : World) (text : string) :
  let q := string_trim (to_string (or_ query_q (VStr ""))) in
  let limit := LegacySearch.limit_of query_limit in
  useMock = false ->
  q <> "" ->
  cache !! LegacySearch.cacheKey q limit false = None ->
  truthy accessToken = true ->
  http_fetch (search_request accessToken q (Num (Z.min limit 50))) (world s)
    = (Some res, w) ->
  res_text res = Some text ->
  res_ok res = false ->
  legacy_search query_q query_limit cache s
    = (SearchError (if res_status res =? 0 then 502 else res_status res)
                   "Pinterest API error" (Some (res_status res)),
       cache,
       Env w (requests s ++
              [search_request accessToken q (Num (Z.min limit 50))])).
Proof.
  intros q limit Hlive Hq Hc Htok Hf Ht Hok.
  unfold LegacySearch.search. fold q. fold limit. rewrite Hlive.
  apply String.eqb_neq in Hq. rewrite Hq, Hc, Htok. simpl.
  unfold LegacySearch.live_body, bind, fetchWithTimeout.
  rewrite Hf. simpl. rewrite Ht. simpl. rewrite Hok. reflexivity.
Qed.

(** X19.  In mock mode the handler never calls the network, and its
    reply depends neither on the cache nor on the token. *)
Theorem legacy_mock_is_offline (query_q query_limit : value)
    (cache : gmap string (list value)) (s : env) :
  useMock = true ->
  snd (legacy_search query_q query_limit cache s) = s /\
  forall (cache2 : gmap string (list value)) (token2 : value),
    fst (fst (LegacySearch.search JSON_parse useMock sample token2
                                  query_q query_limit cache2 s))
    = fst (fst (legacy_search query_q query_limit cache s)).
Proof.
  intros Hmock. unfold LegacySearch.search. rewrite Hmock.
  destruct (String.eqb _ ""); [split; reflexivity |].
  unfold LegacySearch.mock_items, bind.
  destruct sample as [smp|]; simpl; [| split; reflexivity].
  destruct smp; simpl; split; reflexivity.
Qed.
End LegacySearchFacts.

(** ** Image proxy: what is fetched and what is relayed *)

(** X20.  The handler of the image proxy calls [fetch] at most once,
    with the trimmed [url] itself, and only when that text parses as an
    [http:] or [https:] URL whose host name, in lower case, ends with
    one of the allow-listed suffixes.  Where a redirect of the upstream
    leads [fetch] is not part of the statement. *)
Theorem image_proxy_fetches_only_allowed {P : Platform}
    (query_url : value) (s : env) :
  let raw := string_trim (to_string (or_ query_url (VStr ""))) in
  snd (image_proxy query_url s) = s \/
  (requests (snd (image_proxy query_url s))
     = requests s ++ [image_request raw] /\
   exists u suf pre,
     url_parse raw = Some u /\
     (protocol u = "https:" \/ protocol u = "http:") /\
     In suf ALLOWED_IMAGE_HOST_SUFFIXES /\
     to_lower (hostname u) = pre +:+ suf).
Proof.
  intros raw. unfold image_proxy. fold raw.
  destruct (String.eqb raw ""); [left; reflexivity |].
  destruct (url_parse raw) as [u|]; [| left; reflexivity].
  destruct (String.eqb (protocol u) "https:") eqn:H1;
    [| destruct (String.eqb (protocol u) "http:") eqn:H2];
    simpl; try (left; reflexivity);
    (destruct (isAllowedImageHost (hostname u)) eqn:Ha;
     simpl; [| left; reflexivity]);
    right;
    apply isAllowedImageHost_spec in Ha;
    destruct Ha as (suf & pre & Hin & He);
    (split;
     [unfold fetchWithTimeout;
      destruct (http_fetch (image_request raw) (world s)) as [[up|] w];
      reflexivity |]);
    exists u, suf, pre.
  - apply String.eqb_eq in H1. auto.
  - apply String.eqb_eq in H2. auto.
Qed.

(** X21.  The size guard is advisory: for an allowed URL answered with
    a success and a body, the proxy pipes the body with status 200
    whenever the content-length is absent, is not a number, or is at
    most 25 MiB.  The reply carries the content type of the upstream,
    or [application/octet-stream] when there is none, and the three
    fixed cache, CORS and no-sniff headers. *)
Theorem image_proxy_pipes {P : Platform} (query_url : value) (s : env)
    (u : URL) (upstream : response) (w : World) :
  let raw := string_trim (to_string (or_ query_url (VStr ""))) in
  raw <> "" ->
  url_parse raw = Some u ->
  protocol u = "https:" \/ protocol u = "http:" ->
  isAllowedImageHost (hostname u) = true ->
  http_fetch (image_request raw) (world s) = (Some upstream, w) ->
  res_ok upstream = true ->
  res_has_body upstream = true ->
  (res_content_length upstream = None \/
   exists h, res_content_length upstream = Some h /\
             (string_to_number h = NaN \/
              exists n, string_to_number h = Num n /\ n <= 25 * 1024 * 1024)) ->
  image_proxy query_url s =
    (Piped 200
       [("Content-Type",
         match res_content_type upstream with
         | Some c => if String.eqb c "" then "application/octet-stream" else c
         | None => "application/octet-stream"
         end);
        ("Cache-Control", "public, max-age=86400");
        ("Access-Control-Allow-Origin", "*");
        ("X-Content-Type-Options", "nosniff")],
     Env w (requests s ++ [image_request raw])).
Proof.
  intros raw Hraw Hparse Hproto Hhost Hf Hok Hbody Hlen.
  unfold image_proxy. fold raw.
  apply String.eqb_neq in Hraw. rewrite Hraw, Hparse.
  assert (Hp : String.eqb (protocol u) "https:"
               || String.eqb (protocol u) "http:" = true)
    by (destruct Hproto as [-> | ->]; reflexivity).
  rewrite Hp, Hhost. simpl. unfold fetchWithTimeout. rewrite Hf. simpl.
  unfold relay. rewrite Hok. simpl.
  assert (Hsmall : too_large (declared_length (res_content_length upstream))
                   = false).
  { unfold declared_length, too_large, MAX_IMAGE_BYTES.
    destruct Hlen as [-> | (h & -> & [Hn | (n & Hn & Hle)])].
    - reflexivity.
    - destruct (String.eqb h ""); [reflexivity |]. rewrite Hn. reflexivity.
    - destruct (String.eqb h ""); [reflexivity |]. rewrite Hn.
      assert (Hb : (25 * 1024 * 1024 <? n) = false) by (apply Z.ltb_ge; lia).
      rewrite Hb. apply andb_false_r. }
  rewrite Hsmall, Hbody. reflexivity.
Qed.

Lemma to_lower_append (a b : string) :
  to_lower (a +:+ b) = to_lower a +:+ to_lower b.
Proof.
  induction a as [|c a IH]; [reflexivity |].
  rewrite append_cons. simpl. rewrite IH. reflexivity.
Qed.

Lemma lower_ascii_idem (a : ascii) : lower_ascii (lower_ascii a) = lower_ascii a.
Proof.
  unfold lower_ascii.
  destruct ((65 <=? N_of_ascii a) && (N_of_ascii a <=? 90))%N eqn:H;
    [| rewrite H; reflexivity].
  apply andb_true_iff in H. destruct H as [H1 H2].
  apply N.leb_le in H1, H2.
  rewrite N_ascii_embedding by lia.
  assert (H3 : ((65 <=? N_of_ascii a + 32) && (N_of_ascii a + 32 <=? 90))%N
               = false).
  { apply andb_false_iff. right. apply N.leb_gt. lia. }
  rewrite H3. reflexivity.
Qed.

Lemma to_lower_idem (s : string) : to_lower (to_lower s) = to_lower s.
Proof.
  induction s as [|a s IH]; [reflexivity |].
  simpl. rewrite lower_ascii_idem, IH. reflexivity.
Qed.

Lemma append_assoc (a b c : string) : (a +:+ b) +:+ c = a +:+ (b +:+ c).
Proof.
  induction a as [|x a IH]; [reflexivity |].
  rewrite !append_cons, IH. reflexivity.
Qed.

(** X22.  The host check ignores the case of ASCII letters, and every
    name that ends with an allowed host name is allowed as well. *)
Theorem isAllowedImageHost_closure (host : string) :
  isAllowedImageHost (to_lower host) = isAllowedImageHost host /\
  (isAllowedImageHost host = true ->
   forall sub, isAllowedImageHost (sub +:+ host) = true).
Proof.
  split.
  - unfold isAllowedImageHost. rewrite to_lower_idem. reflexivity.
  - intros Ha sub. apply isAllowedImageHost_spec in Ha.
    destruct Ha as (suf & pre & Hin & He).
    apply isAllowedImageHost_spec. exists suf, (to_lower sub +:+ pre).
    split; [exact Hin |].
    rewrite to_lower_append, He, append_assoc. reflexivity.
Qed.

(** X23.  Every record of a success of [/api/me/pins] has a truthy
    image. *)
Theorem me_pins_items_have_image {P : Platform}
    (accessToken query_limit : value) (s : env) :
  match fst (me_pins accessToken query_limit s) with
  | Reply _ (Items items) =>
      Forall (fun r => truthy (pin_image r) = true) items
  | Reply _ (Failure _) => True
  end.
Proof.
  unfold me_pins. destruct (negb (truthy accessToken)); [exact I |].
  destruct (me_pins_body accessToken (request_limit query_limit) s)
    as [[r|e] s'] eqn:Hb; simpl; [| exact I].
  destruct (me_pins_body_returns _ _ _ _ _ Hb) as [[items ->] | [-> _]];
    [| exact I].
  destruct (me_pins_body_items _ _ _ _ _ Hb)
    as (boards & s1 & added & _ & -> & _ & Ha).
  unfold slice_to. apply Forall_take.
  clear Hb. induction Ha as [| b bs n s0 e s2 rest _ _ IH
                              | b bs n s0 pins s2 chunk rest Hf Hsub _ IH];
    [constructor | exact IH |].
  apply Forall_app. split; [| exact IH].
  unfold fetch_board_pins, bind in Hf.
  destruct (encodeURIComponent (board_id b)) as [enc|]; simpl in Hf;
    [| discriminate].
  pose proof (fetchPinsPaged_have_image _ _ _ _ _ _ _ Hf) as Hall.
  rewrite Forall_forall in Hall. apply Forall_forall. intros r Hr.
  apply Hall. eapply elem_of_sublist; eassumption.
Qed.

(** ** Samples *)

Lemma result_bounds_on_last_page :
  (length [sample_record 1; sample_record 2]
   <= Z.to_nat (safeLimit (Num 120)))%nat /\
  1 <= safeLimit (Num 120) <= 500 /\
  (forall z, Num 120 = Num z -> 1 <= z <= 500 -> safeLimit (Num 120) = z) /\
  Forall (fun r => truthy (pin_image r) = true)
         [sample_record 1; sample_record 2].
Proof.
  apply (@fetchPinsPaged_result_bounds scripted "pins" (VStr "t") (Num 120)
           10000 (start last_page) [sample_record 1; sample_record 2]
           (@Env scripted []
                 [page_request "pins" (VStr "t") (Num 120) 10000 VNull])).
  vm_compute. reflexivity.
Defined.

Lemma failure_on_second_page :
  ApiError 500 "boom" = FetchFailed \/ ApiError 500 "boom" = BodyFailed \/
  ApiError 500 "boom" = TypeError \/
  exists status text,
    ApiError 500 "boom" = ApiError status text /\ ~ (200 <= status <= 299).
Proof.
  apply (@fetchPinsPaged_failures scripted "pins" (VStr "t") (Num 120) 10000
           (start page_then_error) (ApiError 500 "boom")
           (@Env scripted []
                 [page_request "pins" (VStr "t") (Num 120) 10000 VNull;
                  page_request "pins" (VStr "t") (Num 120) 10000 (VStr "b1")])).
  vm_compute. reflexivity.
Defined.

Lemma single_board_on_sample :
  @me_pins scripted (VStr "t") (VStr "120") (start one_small_board)
  = (Reply 200 (Items [sample_record 1; sample_record 2]),
     @Env scripted []
          [boards_request (VStr "t") VNull; first_page_of "A" 120]).
Proof.
  apply (@me_pins_single_board scripted (VStr "t") (VStr "120")
           (start one_small_board) (Board "A" (VStr ""))
           (boards_listed one_small_board) 120).
  - reflexivity.
  - vm_compute. reflexivity.
  - reflexivity.
  - lia.
  - vm_compute. reflexivity.
Defined.

Lemma repeat_on_sample :
  @LegacySearch.search scripted (parse_one "one pin" one_pin_page) false None
    (VStr "t") (VStr "cats") VUndef
    (<[LegacySearch.cacheKey "cats" 60 false :=
         [LegacySearch.pin_json
            (record_of Legacy.pickImageUrlFromPin
               (VObj [("id", VStr "7");
                      ("image_url", VStr "https://i.pinimg.com/7.jpg")]))]]> ∅)
    (start [])
  = (SearchOk "cache"
       [LegacySearch.pin_json
          (record_of Legacy.pickImageUrlFromPin
             (VObj [("id", VStr "7");
                    ("image_url", VStr "https://i.pinimg.com/7.jpg")]))],
     <[LegacySearch.cacheKey "cats" 60 false :=
         [LegacySearch.pin_json
            (record_of Legacy.pickImageUrlFromPin
               (VObj [("id", VStr "7");
                      ("image_url", VStr "https://i.pinimg.com/7.jpg")]))]]> ∅,
     start []).
Proof.
  apply (@legacy_search_repeat scripted (parse_one "one pin" one_pin_page)
           false None (VStr "t") (VStr "cats") VUndef ∅ (start [search_hit])
           "pinterest-v5"
           [LegacySearch.pin_json
              (record_of Legacy.pickImageUrlFromPin
                 (VObj [("id", VStr "7");
                        ("image_url", VStr "https://i.pinimg.com/7.jpg")]))]
           (<[LegacySearch.cacheKey "cats" 60 false :=
                [LegacySearch.pin_json
                   (record_of Legacy.pickImageUrlFromPin
                      (VObj [("id", VStr "7");
                             ("image_url",
                              VStr "https://i.pinimg.com/7.jpg")]))]]> ∅)
           (@Env scripted []
                 [search_request (VStr "t") "cats" (Num 50)])
           (start [])).
  - reflexivity.
  - vm_compute. reflexivity.
Defined.

Lemma upstream_404_on_sample :
  @LegacySearch.search scripted (parse_one "one pin" one_pin_page) false None
    (VStr "t") (VStr "cats") VUndef ∅ (start [error_response 404 "gone"])
  = (SearchError 404 "Pinterest API error" (Some 404), ∅,
     @Env scripted [] [search_request (VStr "t") "cats" (Num 50)]).
Proof.
  apply (@legacy_upstream_status scripted (parse_one "one pin" one_pin_page)
           false None (VStr "t") (VStr "cats") VUndef ∅
           (start [error_response 404 "gone"]) (error_body 404 "gone") []
           "gone").
  - reflexivity.
  - discriminate.
  - reflexivity.
  - reflexivity.
  - reflexivity.
  - reflexivity.
  - reflexivity.
Defined.

Lemma mock_on_sample :
  snd (@LegacySearch.search scripted (parse_one "one pin" one_pin_page) true
         (Some (VObj [("items", VArr [VStr "a"; VStr "b"])]))
         VUndef (VStr "cats") (VStr "1") ∅ (start [search_hit]))
  = start [search_hit] /\
  forall (cache2 : gmap string (list value)) (token2 : value),
    fst (fst (@LegacySearch.search scripted
                (parse_one "one pin" one_pin_page) true
                (Some (VObj [("items", VArr [VStr "a"; VStr "b"])]))
                token2 (VStr "cats") (VStr "1") cache2 (start [search_hit])))
    = fst (fst (@LegacySearch.search scripted
                  (parse_one "one pin" one_pin_page) true
                  (Some (VObj [("items", VArr [VStr "a"; VStr "b"])]))
                  VUndef (VStr "cats") (VStr "1") ∅ (start [search_hit]))).
Proof.
  exact (@legacy_mock_is_offline scripted (parse_one "one pin" one_pin_page)
           true (Some (VObj [("items", VArr [VStr "a"; VStr "b"])]))
           VUndef (VStr "cats") (VStr "1") ∅ (start [search_hit]) eq_refl).
Defined.

Lemma pipes_plain_image :
  @image_proxy scripted (VStr pinimg_url) (start [Some plain_image])
  = (Piped 200
       [("Content-Type", "application/octet-stream");
        ("Cache-Control", "public, max-age=86400");
        ("Access-Control-Allow-Origin", "*");
        ("X-Content-Type-Options", "nosniff")],
     @Env scripted [] [image_request pinimg_url]).
Proof.
  apply (@image_proxy_pipes scripted (VStr pinimg_url)
           (start [Some plain_image]) (Url "https:" "i.pinimg.com")
           plain_image []).
  - discriminate.
  - reflexivity.
  - left. reflexivity.
  - reflexivity.
  - reflexivity.
  - reflexivity.
  - reflexivity.
  - left. reflexivity.
Defined.

Lemma absent_limit_is_60 : @LegacySearch.limit_of scripted VUndef = 60.
Proof.
  exact (proj1 (proj2 (@legacy_limit_in_range scripted VUndef)) eq_refl).
Defined.

Lemma subdomain_of_pinimg :
  isAllowedImageHost ("cdn." +:+ "i.pinimg.com") = true.
Proof.
  exact (proj2 (isAllowedImageHost_closure "i.pinimg.com") eq_refl "cdn.").
Defined.

Lemma boards_listing_on_sample :
  requests (snd (@me_boards scripted (VStr "t")
                   (start listing_without_id)))
    = [] ++ [boards_request (VStr "t") VNull] /\
  exists infos,
    fst (@me_boards scripted (VStr "t") (start listing_without_id))
      = BoardsOk infos /\
    Forall2 lists (items_of listing_page) infos.
Proof.
  exact (@me_boards_replies scripted (VStr "t")
           (start listing_without_id)).
Defined.

Lemma search_hit_on_sample :
  @search scripted (parse_one "one pin" one_pin_page)
          (VStr "t") (VStr "cats") VUndef (start [search_hit])
  = (SearchOk "pinterest-v5"
       [record_of pickImageUrlFromPin
          (VObj [("id", VStr "7");
                 ("image_url", VStr "https://i.pinimg.com/7.jpg")])],
     @Env scripted [] [search_request (VStr "t") "cats" (Num 50)]).
Proof.
  refine (proj2 (@search_replies scripted (parse_one "one pin" one_pin_page)
                   (VStr "t") (VStr "cats") VUndef (start [search_hit]))
            {| res_status := 200;
               res_text := Some "one pin";
               res_json := None;
               res_content_type := Some "application/json";
               res_content_length := None;
               res_has_body := true;
               res_bytes := None |}
            [] "one pin" one_pin_page
            [record_of pickImageUrlFromPin
               (VObj [("id", VStr "7");
                      ("image_url", VStr "https://i.pinimg.com/7.jpg")])]
            (@Env scripted [] [search_request (VStr "t") "cats" (Num 50)])
            _ eq_refl eq_refl eq_refl eq_refl eq_refl _).
  - discriminate.
  - vm_compute. reflexivity.
Defined.
